(** * hash_remap: a shallow embedding of the Traffic Server remap plugin

    The plugin (trafficserver/hash_remap.c) replaces the host of a request
    by [<hex of FNV-1 64 over host and path>.<isp name>].  This file embeds
    its C functions as Rocq functions over [Z] and [list byte] and proves
    the properties of the hash engine, of the instance constructor and of
    the per-request transform.

    Conventions of the embedding.
    - A [uint64_t] is a [Z] in [0, 2^64); [size_t] has the same width
      (LP64, which the plugin's own ["%lx"] of a [uint64_t] presupposes).
      An [int] is a [Z] in [-2^31, 2^31).  Every conversion the C code
      performs implicitly is written out.
    - A byte span [(char *buf, size_t len)] is the [list byte] of the [len]
      bytes at [buf].  A C string is the [list byte] found at the pointer;
      what the string functions see of it ends before its first NUL.
    - Whether plain [char] is signed is left by C to the implementation;
      it is a parameter ([char_kind]) of everything that reads a [char]. *)

From Stdlib Require Import ZArith List Lia Bool.
From Stdlib Require Import Strings.Byte Strings.String.
Import ListNotations.
Local Open Scope Z_scope.

(* ================================================================== *)
(** * Part I: definitions *)
(* ================================================================== *)

(** ** C integer types *)

Definition UINT64_MOD : Z := 2 ^ 64.
Definition INT_MAX : Z := 2 ^ 31 - 1.

(** Conversion to [uint64_t] (and to [size_t]): reduction modulo 2^64. *)
Definition to_uint64 (z : Z) : Z := z mod UINT64_MOD.

(** Conversion of an out-of-range value to [int], as gcc and clang define
    it: reduction modulo 2^32 into [-2^31, 2^31). *)
Definition to_int (z : Z) : Z := (z + 2 ^ 31) mod 2 ^ 32 - 2 ^ 31.

(** The implementation's choice for plain [char]: signed on the x86-64
    System V ABI, unsigned on AArch64 Linux. *)
Inductive char_kind : Type := SignedChar | UnsignedChar.

(** The value in 0..255 of a byte of memory. *)
Definition byte_unsigned (b : byte) : Z := Z.of_N (Byte.to_N b).

(** The value of the byte read through a [char *]. *)
Definition char_value (k : char_kind) (b : byte) : Z :=
  match k with
  | UnsignedChar => byte_unsigned b
  | SignedChar =>
      if byte_unsigned b <? 128 then byte_unsigned b else byte_unsigned b - 256
  end.

(** ** The hash engine (hash_remap.c, lines 171-189) *)

Definition FNV1_64_INIT : Z := 0xcbf29ce484222325.
Definition FNV_64_PRIME : Z := 0x100000001b3.

Section HashEngine.

Variable k : char_kind.

(** The [for] loop of [hash_fnv64] over the local [hval]:
    [hval *= FNV_64_PRIME; hval ^= (uint64_t)*buf++;] *)
Fixpoint hash_fnv64_loop (buf : list byte) (hval : Z) : Z :=
  match buf with
  | [] => hval
  | c :: buf' =>
      let hval1 := to_uint64 (hval * FNV_64_PRIME) in
      let hval2 := Z.lxor hval1 (to_uint64 (char_value k c)) in
      hash_fnv64_loop buf' hval2
  end.

(** [uint64_t hash_fnv64(char *buf, size_t len)] *)
Definition hash_fnv64 (buf : list byte) : Z :=
  hash_fnv64_loop buf FNV1_64_INIT.

(** [void hash_fnv64_continue(char *buf, size_t len, uint64_t *hval)]:
    the result is the value left in [*hval].  The C function has a loop
    of its own, and so has this one. *)
Fixpoint hash_fnv64_continue (buf : list byte) (hval : Z) : Z :=
  match buf with
  | [] => hval
  | c :: buf' =>
      hash_fnv64_continue buf'
        (Z.lxor (to_uint64 (hval * FNV_64_PRIME))
                (to_uint64 (char_value k c)))
  end.

End HashEngine.

(** The digest as the specification words it: start from the seed, and for
    each byte, left to right, multiply modulo 2^64 by the prime and then
    XOR with the byte's unsigned value (0..255). *)
Definition spec_fnv_step (acc : Z) (b : byte) : Z :=
  Z.lxor ((acc * 0x100000001b3) mod 2 ^ 64) (byte_unsigned b).

Definition spec_digest (span : list byte) : Z :=
  fold_left spec_fnv_step span 0xcbf29ce484222325.

(** ** Formatting: [sprintf(dst, "%lx.%.*s", v, prec, s)] *)

(** The character of a hexadecimal digit, as ["%x"] prints it. *)
Definition hex_char (d : Z) : byte :=
  match d with
  | 0 => "0" | 1 => "1" | 2 => "2" | 3 => "3"
  | 4 => "4" | 5 => "5" | 6 => "6" | 7 => "7"
  | 8 => "8" | 9 => "9" | 10 => "a" | 11 => "b"
  | 12 => "c" | 13 => "d" | 14 => "e" | _ => "f"
  end%byte.

(** Digits of [v] from the least significant one, pushed in front of
    [acc]; it stops at the most significant non-zero digit, and prints one
    digit for zero. *)
Fixpoint lx_digits (fuel : nat) (v : Z) (acc : list byte) : list byte :=
  match fuel with
  | O => acc
  | S fuel' =>
      let acc' := hex_char (v mod 16) :: acc in
      if v / 16 =? 0 then acc' else lx_digits fuel' (v / 16) acc'
  end.

(** ["%lx"] of an [unsigned long] (64 bits): at most 16 digits. *)
Definition fmt_lx (v : Z) : list byte := lx_digits 16 (to_uint64 v) [].

(** What the string functions see of a C string: the bytes before the
    first NUL. *)
Fixpoint cstr (s : list byte) : list byte :=
  match s with
  | [] => []
  | c :: s' => if Byte.eqb c "000"%byte then [] else c :: cstr s'
  end.

Definition strlen (s : list byte) : Z := Z.of_nat (List.length (cstr s)).

(** [TSstrdup]: a fresh copy of the string. *)
Definition TSstrdup (s : list byte) : list byte := cstr s.

(** ["%.*s"] with precision [prec]: at most [prec] bytes of the string; a
    negative precision is taken as if it were omitted. *)
Definition fmt_prec_s (prec : Z) (s : list byte) : list byte :=
  if prec <? 0 then cstr s else firstn (Z.to_nat prec) (cstr s).

(** The characters [sprintf] produces for ["%lx.%.*s"]. *)
Definition fmt_hash_host (v prec : Z) (s : list byte) : list byte :=
  fmt_lx v ++ "."%byte :: fmt_prec_s prec s.

(** The value [sprintf] returns: the number of characters, the terminating
    NUL not counted; -1 when that number does not fit an [int]. *)
Definition sprintf_result (chars : list byte) : Z :=
  let n := Z.of_nat (List.length chars) in
  if n <=? INT_MAX then n else -1.

(** The value of a string of lowercase hexadecimal digits ([None] when a
    character is no such digit): the inverse reading of ["%lx"]. *)
Definition hex_value_of_char (c : byte) : option Z :=
  let u := byte_unsigned c in
  if (48 <=? u) && (u <=? 57) then Some (u - 48)
  else if (97 <=? u) && (u <=? 102) then Some (u - 87)
  else None.

Fixpoint hex_value_from (acc : Z) (s : list byte) : option Z :=
  match s with
  | [] => Some acc
  | c :: s' =>
      match hex_value_of_char c with
      | Some d => hex_value_from (acc * 16 + d) s'
      | None => None
      end
  end.

Definition hex_value (s : list byte) : option Z :=
  match s with
  | [] => None
  | _ => hex_value_from 0 s
  end.

(** A string is the natural lowercase hexadecimal numeral of [v]: its
    characters are digits [0-9a-f] whose value is [v], and it has no more
    digits than [v] needs (one digit, or a most significant digit that
    counts). *)
Definition natural_hex (s : list byte) (v : Z) : Prop :=
  hex_value s = Some v
  /\ (List.length s = 1%nat \/ 16 ^ (Z.of_nat (List.length s) - 1) <= v).

(** ** The instance (hash_remap.c, lines 74-79 and 91-113) *)

(** [hash_remap_struct].  The field [char *hash] is the scratch buffer:
    the structure records its capacity [hash_len]; its contents are
    indeterminate after [TSmalloc] and reset by every request, and are
    reported by the transform (see [remap_outcome]). *)
Record hash_remap_struct : Type := {
  isp_name : list byte;   (* char *isp_name *)
  isp_name_len : Z;       (* int isp_name_len *)
  hash_len : Z            (* size_t hash_len, the capacity of [hash] *)
}.

(** The parameter vector as Traffic Server builds it: one pointer per
    token in an array it has zeroed, so the slot after the last token
    holds NULL ([None]). *)
Definition host_argc (tokens : list (list byte)) : Z :=
  Z.of_nat (List.length tokens).

Definition host_argv (tokens : list (list byte)) : list (option (list byte)) :=
  map Some tokens ++ [None].

(** [int TSRemapNewInstance(int argc, char *argv[], void **ih, ...)].
    The result is the returned [int], what was stored in [*ih], and the
    [TSError] messages; [None] stands for the undefined behaviour of
    reading [argv[2]] outside the vector. *)
Definition TSRemapNewInstance (argc : Z) (argv : list (option (list byte)))
  : option (Z * option hash_remap_struct * list string) :=
  if argc <? 2 then
    Some (-1, None, ["Missing parameters for hash_remap"%string])
  else
    match nth_error argv 2 with
    | None => None
    | Some None =>
        Some (-1, None, ["Missing parameters for hash_remap"%string])
    | Some (Some arg) =>
        let name := TSstrdup arg in
        let name_len := to_int (strlen name) in
        let h := {| isp_name := name;
                    isp_name_len := name_len;
                    hash_len := to_uint64 ((8 * 1) * 2 + to_uint64 name_len + 1) |} in
        Some (0, Some h, [])
    end.

(** The call Traffic Server makes for a rule with the given tokens. *)
Definition host_new_instance (tokens : list (list byte))
  : option (Z * option hash_remap_struct * list string) :=
  TSRemapNewInstance (host_argc tokens) (host_argv tokens).

(** The instance [TSRemapNewInstance] builds for the suffix token [s]. *)
Definition instance_for (s : list byte) : hash_remap_struct :=
  {| isp_name := cstr s;
     isp_name_len := to_int (strlen s);
     hash_len := to_uint64 (16 + to_uint64 (to_int (strlen s)) + 1) |}.

Definition missing_parameters : list string :=
  ["Missing parameters for hash_remap"%string].

(** Construction fails: -1 is returned and no instance is stored. *)
Definition construction_fails (tokens : list (list byte)) : Prop :=
  exists msgs, host_new_instance tokens = Some (-1, None, msgs).

(** The validation rule as the specification words it: fewer than three
    tokens, or an empty third token, make the construction fail. *)
Definition empty_or_missing_suffix_rejected : Prop :=
  forall tokens : list (list byte),
    ((List.length tokens < 3)%nat
     \/ exists s, nth_error tokens 2 = Some s /\ cstr s = []) ->
    construction_fails tokens.

(** ** The per-request transform (hash_remap.c, lines 134-168) *)

Inductive TSRemapStatus : Type := TSREMAP_NO_REMAP | TSREMAP_DID_REMAP.
Inductive TSReturnCode : Type := TS_ERROR | TS_SUCCESS.

(** The request URL, as far as the plugin uses it.  [TSUrlHostGet] and
    [TSUrlPathGet] give a span; [TSUrlHostSet] gives its return code and
    the URL it leaves behind. *)
Class UrlApi (Url : Type) : Type := {
  TSUrlHostGet : Url -> list byte;
  TSUrlPathGet : Url -> list byte;
  TSUrlHostSet : Url -> list byte -> TSReturnCode * Url
}.

(** The contract of the host that the plugin's fallback relies on ("the
    request was not modified"): a rejected [TSUrlHostSet] leaves the host
    of the URL as it was. *)
Definition rejected_set_keeps_host {Url : Type} (api : UrlApi Url) : Prop :=
  forall (u u' : Url) (s : list byte),
    TSUrlHostSet u s = (TS_ERROR, u') -> TSUrlHostGet u' = TSUrlHostGet u.

(** Storing [data] at the start of the buffer [buf]: the contents of the
    buffer afterwards, and the bytes that were stored past its end. *)
Definition store_bytes (buf data : list byte) : list byte * list byte :=
  (firstn (List.length buf) data ++ skipn (List.length data) buf,
   skipn (List.length buf) data).

(** What one call of [TSRemapDoRemap] does. *)
Record remap_outcome (Url : Type) : Type := {
  status : TSRemapStatus;            (* the value returned *)
  request_after : option Url;        (* the request URL after the call *)
  host_set_arg : option (list byte); (* the bytes given to [TSUrlHostSet], if called *)
  scratch : option (list byte);      (* the buffer [hash] after the call, if written *)
  overrun : list byte;               (* bytes stored past the end of [hash] *)
  errors : list string               (* [TSError] messages *)
}.

Arguments status {Url} _.
Arguments request_after {Url} _.
Arguments host_set_arg {Url} _.
Arguments scratch {Url} _.
Arguments overrun {Url} _.
Arguments errors {Url} _.

Section Transform.

Variable k : char_kind.
Context {Url : Type} {api : UrlApi Url}.

(** The digest of a request: host first, then path. *)
Definition request_digest (url : Url) : Z :=
  let hash_value := hash_fnv64 k (TSUrlHostGet url) in
  hash_fnv64_continue k (TSUrlPathGet url) hash_value.

(** The characters [sprintf] formats for a request. *)
Definition formatted (h : hash_remap_struct) (url : Url) : list byte :=
  fmt_hash_host (request_digest url) (isp_name_len h) (isp_name h).

(** [TSRemapStatus TSRemapDoRemap(void *ih, TSHttpTxn rh,
    TSRemapRequestInfo *rri)]; [None] is the NULL pointer. *)
Definition TSRemapDoRemap (ih : option hash_remap_struct) (rri : option Url)
  : remap_outcome Url :=
  match rri, ih with
  | Some url, Some h =>
      let req_host := TSUrlHostGet url in
      let req_path := TSUrlPathGet url in
      let hash_value := hash_fnv64 k req_host in
      let hash_value := hash_fnv64_continue k req_path hash_value in
      (* memset(hash->hash, 0, hash->hash_len) *)
      let zeroed := repeat "000"%byte (Z.to_nat (hash_len h)) in
      (* int len = sprintf(hash->hash, "%lx.%.*s", ...) *)
      let chars := fmt_hash_host hash_value (isp_name_len h) (isp_name h) in
      let stored := store_bytes zeroed (chars ++ ["000"%byte]) in
      let len := sprintf_result chars in
      (* len > hash->hash_len, compared as size_t *)
      if to_uint64 len >? hash_len h then
        {| status := TSREMAP_NO_REMAP;
           request_after := Some url;
           host_set_arg := None;
           scratch := Some (fst stored);
           overrun := snd stored;
           errors := ["hash_remapMemory probably corrupt :whistle:"%string] |}
      else
        let arg := firstn (Z.to_nat len) (fst stored) in
        match TSUrlHostSet url arg with
        | (TS_SUCCESS, url') =>
            {| status := TSREMAP_DID_REMAP;
               request_after := Some url';
               host_set_arg := Some arg;
               scratch := Some (fst stored);
               overrun := snd stored;
               errors := [] |}
        | (TS_ERROR, url') =>
            {| status := TSREMAP_NO_REMAP;
               request_after := Some url';
               host_set_arg := Some arg;
               scratch := Some (fst stored);
               overrun := snd stored;
               errors := ["hash_remapFailed to modify the Host in request URL"%string] |}
        end
  | _, _ =>
      {| status := TSREMAP_NO_REMAP;
         request_after := rri;
         host_set_arg := None;
         scratch := None;
         overrun := [];
         errors := ["hash_remapNULL pointer for rri or ih"%string] |}
  end.

End Transform.

(** ** A concrete request context, for the examples *)

(** A URL with a host and a path; [read_only] makes every [TSUrlHostSet]
    fail, as Traffic Server does for a buffer that is not writable. *)
Record simple_url : Type := {
  url_host : list byte;
  url_path : list byte;
  read_only : bool
}.

Definition simple_host_set (u : simple_url) (s : list byte)
  : TSReturnCode * simple_url :=
  if read_only u then (TS_ERROR, u)
  else (TS_SUCCESS,
        {| url_host := s; url_path := url_path u; read_only := false |}).

#[export] Instance simple_api : UrlApi simple_url := {
  TSUrlHostGet := url_host;
  TSUrlPathGet := url_path;
  TSUrlHostSet := simple_host_set
}.

(** Bytes of a string literal. *)
Definition bytes (s : string) : list byte := list_byte_of_string s.

(** The rule and the request of the plugin's documentation:
    [@pparam=tlmc.isp.example] and [http://www.example/]. *)
Definition doc_rule : list (list byte) :=
  [bytes "from"; bytes "to"; bytes "tlmc.isp.example"].

Definition doc_instance : hash_remap_struct :=
  instance_for (bytes "tlmc.isp.example").

Definition doc_request : simple_url :=
  {| url_host := bytes "www.example"; url_path := []; read_only := false |}.

(** Two instances with the same suffix and other capacities: 8 bytes, and
    the 16 + 1 + 16 + 1 = 34 bytes of the sizing invariant. *)
Definition short_instance : hash_remap_struct :=
  {| isp_name := bytes "tlmc.isp.example"; isp_name_len := 16; hash_len := 8 |}.

Definition sized_instance : hash_remap_struct :=
  {| isp_name := bytes "tlmc.isp.example"; isp_name_len := 16; hash_len := 34 |}.

(** The same request in a buffer that cannot be written. *)
Definition locked_request : simple_url :=
  {| url_host := bytes "www.example"; url_path := []; read_only := true |}.

(** ** The instance in memory (hash_remap.c, lines 102-109 and 115-131) *)

(** The constructor allocates three blocks and the teardown frees them.
    A heap is the list of the blocks ever allocated, a pointer the index
    of its block, a freed block [None]; NULL is the [None] of
    [option ptr]. *)
Definition ptr : Type := nat.

Inductive block : Type :=
| RawBlock (size : Z)                (* [TSmalloc]ed bytes, not written yet *)
| CharBlock (contents : list byte)   (* the string copied by [TSstrdup] *)
| InstanceBlock (name : option ptr) (name_len : Z)
                (buf : option ptr) (buf_len : Z).   (* [hash_remap_struct] *)

Definition heap : Type := list (option block).

(** [TSmalloc] and [TSstrdup] give a fresh block; they do not fail
    (Traffic Server aborts when memory runs out). *)
Definition heap_alloc (hp : heap) (b : block) : heap * ptr :=
  (hp ++ [Some b], List.length hp).

Fixpoint heap_update (hp : heap) (p : ptr) (b : option block) : heap :=
  match hp, p with
  | [], _ => []
  | _ :: hp', O => b :: hp'
  | x :: hp', S p' => x :: heap_update hp' p' b
  end.

(** [TSfree]: releasing what is not a live block (a second release, a
    wild pointer) is undefined, [None]. *)
Definition TSfree (hp : heap) (p : ptr) : option heap :=
  match nth_error hp p with
  | Some (Some _) => Some (heap_update hp p None)
  | _ => None
  end.

(** [sizeof(hash_remap_struct)] on LP64: two pointers, an [int] with its
    padding, and a [size_t]. *)
Definition sizeof_hash_remap_struct : Z := 32.

(** [TSRemapNewInstance] with its allocations: the returned [int], the
    pointer stored in [*ih], and the heap afterwards; [None] for the
    undefined read of [argv[2]] outside the vector. *)
Definition TSRemapNewInstance_heap
           (hp : heap) (argc : Z) (argv : list (option (list byte)))
  : option (Z * option ptr * heap) :=
  if argc <? 2 then Some (-1, None, hp)
  else
    match nth_error argv 2 with
    | None => None
    | Some None => Some (-1, None, hp)
    | Some (Some arg) =>
        (* hash = TSmalloc(sizeof(hash_remap_struct)) *)
        let (hp1, hash) := heap_alloc hp (RawBlock sizeof_hash_remap_struct) in
        (* hash->isp_name = TSstrdup(argv[2]) *)
        let (hp2, name) := heap_alloc hp1 (CharBlock (TSstrdup arg)) in
        let name_len := to_int (strlen (TSstrdup arg)) in
        let buf_len := to_uint64 ((8 * 1) * 2 + to_uint64 name_len + 1) in
        (* hash->hash = TSmalloc(hash->hash_len) *)
        let (hp3, buf) := heap_alloc hp2 (RawBlock buf_len) in
        let hp4 :=
          heap_update hp3 hash
            (Some (InstanceBlock (Some name) name_len (Some buf) buf_len)) in
        Some (0, Some hash, hp4)
    end.

(** [void TSRemapDeleteInstance(void *ih)]: the heap afterwards; [None]
    when [ih] does not point to a live instance or a [TSfree] is
    undefined. *)
Definition TSRemapDeleteInstance (hp : heap) (ih : option ptr) : option heap :=
  match ih with
  | None => Some hp
  | Some hash =>
      match nth_error hp hash with
      | Some (Some (InstanceBlock name _ buf _)) =>
          let after_name :=
            match name with
            | Some q => TSfree hp q
            | None => Some hp
            end in
          let after_buf :=
            match after_name, buf with
            | Some hp1, Some r => TSfree hp1 r
            | Some hp1, None => Some hp1
            | None, _ => None
            end in
          match after_buf with
          | Some hp2 => TSfree hp2 hash
          | None => None
          end
      | _ => None
      end
  end.

(** The instance a pointer leads to, as [TSRemapDoRemap] reads it. *)
Definition heap_instance (hp : heap) (p : ptr) : option hash_remap_struct :=
  match nth_error hp p with
  | Some (Some (InstanceBlock (Some q) name_len (Some _) buf_len)) =>
      match nth_error hp q with
      | Some (Some (CharBlock contents)) =>
          Some {| isp_name := contents;
                  isp_name_len := name_len;
                  hash_len := buf_len |}
      | _ => None
      end
  | _ => None
  end.

(** The three blocks of the instance for the argument [arg], laid out
    from the address [base]: the structure, the copy of the name, the
    scratch buffer. *)
Definition instance_blocks (base : ptr) (arg : list byte) : heap :=
  [Some (InstanceBlock (Some (base + 1)%nat) (isp_name_len (instance_for arg))
                       (Some (base + 2)%nat) (hash_len (instance_for arg)));
   Some (CharBlock (isp_name (instance_for arg)));
   Some (RawBlock (hash_len (instance_for arg)))].

(** The number of live blocks. *)
Definition live_blocks (hp : heap) : nat :=
  List.length (filter (fun b => match b with Some _ => true | None => false end) hp).

(** ** Reading a rewritten host back *)

(** The label before the first dot, and what follows the dot. *)
Fixpoint split_at_dot (s : list byte) : option (list byte * list byte) :=
  match s with
  | [] => None
  | c :: s' =>
      if Byte.eqb c "."%byte then Some ([], s')
      else match split_at_dot s' with
           | Some (label, rest) => Some (c :: label, rest)
           | None => None
           end
  end.

(** The digest and the suffix a host of the form [<hex>.<suffix>] names. *)
Definition parse_host (s : list byte) : option (Z * list byte) :=
  match split_at_dot s with
  | Some (label, rest) =>
      match hex_value label with
      | Some v => Some (v, rest)
      | None => None
      end
  | None => None
  end.

(** The inverse of [FNV_64_PRIME] modulo 2^64. *)
Definition FNV_64_PRIME_INV : Z := 0xce965057aff6957b.

(** The mask a sign-extended [char] adds to a byte of 0x80 or more. *)
Definition SIGN_BITS : Z := 0xffffffffffffff00.

(** A second request with the host and path of the documentation's
    [http://www.example/hello/world], and one that splits the same bytes
    elsewhere. *)
Definition hello_request : simple_url :=
  {| url_host := bytes "www.example"; url_path := bytes "hello/world";
     read_only := false |}.

Definition shifted_request : simple_url :=
  {| url_host := bytes "www.examplehello"; url_path := bytes "/world";
     read_only := false |}.

(* ================================================================== *)
(** * Part II: properties *)
(* ================================================================== *)

(** ** Integers and bytes *)

Arguments to_uint64 : simpl never.
Arguments to_int : simpl never.

Lemma byte_unsigned_range (b : byte) : 0 <= byte_unsigned b < 256.
Proof.
  unfold byte_unsigned. pose proof (Byte.to_N_bounded b). lia.
Qed.

Lemma to_uint64_range (z : Z) : 0 <= to_uint64 z < 2 ^ 64.
Proof. unfold to_uint64, UINT64_MOD. apply Z.mod_pos_bound. lia. Qed.

Lemma to_uint64_small (z : Z) : 0 <= z < 2 ^ 64 -> to_uint64 z = z.
Proof. intros Hz. unfold to_uint64, UINT64_MOD. now apply Z.mod_small. Qed.

Lemma to_int_small (z : Z) : - 2 ^ 31 <= z <= INT_MAX -> to_int z = z.
Proof.
  unfold to_int, INT_MAX. intros Hz.
  rewrite Z.mod_small by lia. lia.
Qed.

Lemma char_value_unsigned_char (b : byte) :
  to_uint64 (char_value UnsignedChar b) = byte_unsigned b.
Proof.
  cbn [char_value]. apply to_uint64_small.
  pose proof (byte_unsigned_range b). lia.
Qed.

Lemma char_value_low (k : char_kind) (b : byte) :
  byte_unsigned b < 128 -> to_uint64 (char_value k b) = byte_unsigned b.
Proof.
  intros Hb. pose proof (byte_unsigned_range b) as Hr.
  destruct k; cbn [char_value].
  - apply Z.ltb_lt in Hb. rewrite Hb. apply to_uint64_small. lia.
  - apply to_uint64_small. lia.
Qed.

(** A signed [char] of 0x80 or more converts to [uint64_t] with its upper
    56 bits set. *)
Lemma char_value_signed_high (b : byte) :
  128 <= byte_unsigned b ->
  to_uint64 (char_value SignedChar b) = 0xffffffffffffff00 + byte_unsigned b.
Proof.
  intros Hb. pose proof (byte_unsigned_range b) as Hr. cbn [char_value].
  destruct (byte_unsigned b <? 128) eqn:E; [apply Z.ltb_lt in E; lia|].
  unfold to_uint64, UINT64_MOD.
  replace (byte_unsigned b - 256)
    with (18446744073709551360 + byte_unsigned b + (-1) * 2 ^ 64) by lia.
  rewrite Z.mod_add by lia. apply Z.mod_small. lia.
Qed.

Lemma uint64_log2 (a : Z) : 0 <= a < 2 ^ 64 -> Z.log2 a < 64.
Proof.
  intros Ha. destruct (Z.eq_dec a 0) as [->|Hnz]; [reflexivity|].
  apply Z.log2_lt_pow2; lia.
Qed.

(** The XOR of two [uint64_t] is a [uint64_t]. *)
Lemma lxor_uint64 (a b : Z) :
  0 <= a < 2 ^ 64 -> 0 <= b < 2 ^ 64 -> 0 <= Z.lxor a b < 2 ^ 64.
Proof.
  intros Ha Hb.
  assert (Hnn : 0 <= Z.lxor a b) by (apply Z.lxor_nonneg; lia).
  split; [exact Hnn|].
  destruct (Z.eq_dec (Z.lxor a b) 0) as [->|Hnz]; [lia|].
  apply Z.log2_lt_pow2; [lia|].
  eapply Z.le_lt_trans; [apply Z.log2_lxor; lia|].
  apply Z.max_lub_lt; now apply uint64_log2.
Qed.

(** ** The hash engine *)

Section HashFacts.

Variable k : char_kind.

Lemma hash_fnv64_continue_is_loop (buf : list byte) :
  forall hval, hash_fnv64_continue k buf hval = hash_fnv64_loop k buf hval.
Proof.
  induction buf as [|c buf IH]; intros hval; simpl.
  - reflexivity.
  - apply IH.
Qed.

Lemma hash_fnv64_loop_app (h p : list byte) :
  forall hval,
    hash_fnv64_loop k (h ++ p) hval
    = hash_fnv64_loop k p (hash_fnv64_loop k h hval).
Proof.
  induction h as [|c h IH]; intros hval; simpl.
  - reflexivity.
  - apply IH.
Qed.

Lemma hash_fnv64_continue_app (h p : list byte) (hval : Z) :
  hash_fnv64_continue k (h ++ p) hval
  = hash_fnv64_continue k p (hash_fnv64_continue k h hval).
Proof.
  rewrite !hash_fnv64_continue_is_loop. apply hash_fnv64_loop_app.
Qed.

(** The accumulator stays a [uint64_t]. *)
Lemma hash_fnv64_loop_range (buf : list byte) :
  forall hval, 0 <= hval < 2 ^ 64 ->
               0 <= hash_fnv64_loop k buf hval < 2 ^ 64.
Proof.
  induction buf as [|c buf IH]; intros hval Hh; simpl.
  - exact Hh.
  - apply IH. apply lxor_uint64; apply to_uint64_range.
Qed.

Lemma hash_fnv64_range (buf : list byte) : 0 <= hash_fnv64 k buf < 2 ^ 64.
Proof.
  apply hash_fnv64_loop_range. unfold FNV1_64_INIT. lia.
Qed.

End HashFacts.

(** The loop of the code against the fold of the specification, from any
    accumulator, when every byte converts to its unsigned value. *)
Lemma hash_fnv64_loop_spec_fold (k : char_kind) (span : list byte) :
  Forall (fun b => to_uint64 (char_value k b) = byte_unsigned b) span ->
  forall hval,
    hash_fnv64_loop k span hval = fold_left spec_fnv_step span hval.
Proof.
  induction 1 as [|b span Hb _ IH]; intros hval; simpl.
  - reflexivity.
  - rewrite Hb. apply IH.
Qed.

(** Where plain [char] is unsigned the code computes the specified digest
    of every span. *)
Lemma hash_fnv64_unsigned_char_spec (span : list byte) :
  hash_fnv64 UnsignedChar span = spec_digest span.
Proof.
  apply hash_fnv64_loop_spec_fold.
  apply Forall_forall. intros b _. apply char_value_unsigned_char.
Qed.

(** On either kind of platform the code computes the specified digest of a
    span of bytes below 0x80 (ASCII). *)
Lemma hash_fnv64_ascii_spec (k : char_kind) (span : list byte) :
  Forall (fun b => byte_unsigned b < 128) span ->
  hash_fnv64 k span = spec_digest span.
Proof.
  intros H. apply hash_fnv64_loop_spec_fold.
  eapply Forall_impl; [|exact H]. intros b Hb. now apply char_value_low.
Qed.

(** Where plain [char] is signed, the digest of a single byte of 0x80 or
    more is the specified digest with its upper 56 bits flipped. *)
Lemma hash_fnv64_signed_char_high_byte (b : byte) :
  128 <= byte_unsigned b ->
  hash_fnv64 SignedChar [b] = Z.lxor (spec_digest [b]) 0xffffffffffffff00
  /\ hash_fnv64 SignedChar [b] <> spec_digest [b].
Proof.
  intros Hb.
  destruct b;
    first [ exfalso; vm_compute in Hb; apply Hb; reflexivity
          | split; [vm_compute; reflexivity | vm_compute; discriminate] ].
Qed.

(** The vector of the plugin's documentation: [./fnv164 -s www.example]
    prints [0x24d4dc434ba8a1da]. *)
Example hash_fnv64_www_example (k : char_kind) :
  hash_fnv64 k (bytes "www.example") = 0x24d4dc434ba8a1da.
Proof. destruct k; vm_compute; reflexivity. Qed.

(** ** Formatting *)

(** ["%lx"] pads nothing and prints lowercase digits. *)
Example fmt_lx_zero : fmt_lx 0 = bytes "0".
Proof. vm_compute. reflexivity. Qed.

Example fmt_lx_255 : fmt_lx 255 = bytes "ff".
Proof. vm_compute. reflexivity. Qed.

Example fmt_lx_fifteen_digits :
  fmt_lx 0x0123456789abcdef = bytes "123456789abcdef".
Proof. vm_compute. reflexivity. Qed.

Example fmt_lx_max : fmt_lx (2 ^ 64 - 1) = bytes "ffffffffffffffff".
Proof. vm_compute. reflexivity. Qed.

Lemma hex_value_of_hex_char (d : Z) :
  0 <= d < 16 -> hex_value_of_char (hex_char d) = Some d.
Proof.
  intros Hd.
  assert (d = 0 \/ d = 1 \/ d = 2 \/ d = 3 \/ d = 4 \/ d = 5 \/ d = 6
          \/ d = 7 \/ d = 8 \/ d = 9 \/ d = 10 \/ d = 11 \/ d = 12
          \/ d = 13 \/ d = 14 \/ d = 15) as Hcases by lia.
  repeat (destruct Hcases as [->|Hcases]; [reflexivity|]).
  subst d. reflexivity.
Qed.

Lemma hex_value_from_app (s t : list byte) :
  forall a,
    hex_value_from a (s ++ t)
    = match hex_value_from a s with
      | Some a' => hex_value_from a' t
      | None => None
      end.
Proof.
  induction s as [|c s IH]; intros a; cbn [hex_value_from app].
  - reflexivity.
  - destruct (hex_value_of_char c); [apply IH|reflexivity].
Qed.

(** The digits [lx_digits] puts in front of [acc]. *)
Lemma lx_digits_spec (fuel : nat) :
  forall v acc,
    0 <= v < 16 ^ Z.of_nat fuel -> (0 < fuel)%nat ->
    exists ds,
      lx_digits fuel v acc = ds ++ acc
      /\ (1 <= List.length ds <= fuel)%nat
      /\ (forall a, hex_value_from a ds
                    = Some (a * 16 ^ Z.of_nat (List.length ds) + v))
      /\ (List.length ds = 1%nat
          \/ 16 ^ (Z.of_nat (List.length ds) - 1) <= v).
Proof.
  induction fuel as [|fuel IH]; intros v acc Hv Hfuel; [lia|].
  cbn [lx_digits].
  assert (Hdigit : 0 <= v mod 16 < 16) by (apply Z.mod_pos_bound; lia).
  destruct (v / 16 =? 0) eqn:Hq.
  - apply Z.eqb_eq in Hq.
    assert (Hsmall : v mod 16 = v).
    { pose proof (Z.div_mod v 16 ltac:(lia)). lia. }
    exists [hex_char (v mod 16)]. cbn [List.length app].
    split; [reflexivity|]. split; [lia|]. split; [|now left].
    intros a. cbn [hex_value_from].
    rewrite hex_value_of_hex_char by exact Hdigit.
    rewrite Hsmall. f_equal.
  - apply Z.eqb_neq in Hq.
    assert (Hpow : 16 ^ Z.of_nat (S fuel) = 16 * 16 ^ Z.of_nat fuel).
    { rewrite Nat2Z.inj_succ, Z.pow_succ_r by lia. reflexivity. }
    assert (Hquot : 1 <= v / 16 < 16 ^ Z.of_nat fuel).
    { split.
      - pose proof (Z.div_pos v 16 ltac:(lia) ltac:(lia)). lia.
      - apply Z.div_lt_upper_bound; lia. }
    assert (Hpos : (0 < fuel)%nat).
    { destruct fuel; [|lia]. cbn in Hquot. lia. }
    destruct (IH (v / 16) (hex_char (v mod 16) :: acc)
                 ltac:(lia) Hpos) as (ds & Heq & Hlen & Hval & Hmin).
    exists (ds ++ [hex_char (v mod 16)]).
    rewrite Heq, <- app_assoc. cbn [app].
    rewrite length_app. cbn [List.length].
    split; [reflexivity|]. split; [lia|].
    assert (Hlen1 : Z.of_nat (List.length ds + 1)
                    = Z.succ (Z.of_nat (List.length ds))) by lia.
    split.
    + intros a. rewrite hex_value_from_app, Hval. cbn [hex_value_from].
      rewrite hex_value_of_hex_char by exact Hdigit.
      f_equal. rewrite Hlen1, Z.pow_succ_r by lia.
      pose proof (Z.div_mod v 16 ltac:(lia)). lia.
    + right. rewrite Hlen1.
      replace (Z.succ (Z.of_nat (List.length ds)) - 1)
        with (Z.of_nat (List.length ds)) by lia.
      pose proof (Z.div_mod v 16 ltac:(lia)) as Hdm.
      destruct Hmin as [Hone|Hmin].
      * rewrite Hone. change (16 ^ Z.of_nat 1) with 16. lia.
      * replace (Z.of_nat (List.length ds))
          with (Z.succ (Z.of_nat (List.length ds) - 1)) by lia.
        rewrite Z.pow_succ_r by lia. lia.
Qed.

(** ["%lx"] prints the natural lowercase hexadecimal numeral of its
    argument, of 1 to 16 digits. *)
Lemma fmt_lx_natural_hex (v : Z) :
  0 <= v < 2 ^ 64 ->
  natural_hex (fmt_lx v) v /\ (1 <= List.length (fmt_lx v) <= 16)%nat.
Proof.
  intros Hv. unfold fmt_lx. rewrite to_uint64_small by exact Hv.
  destruct (lx_digits_spec 16 v [] ltac:(change (16 ^ Z.of_nat 16) with (2 ^ 64); exact Hv)
                           ltac:(lia)) as (ds & Heq & Hlen & Hval & Hmin).
  rewrite Heq, app_nil_r.
  split; [|exact Hlen]. split; [|exact Hmin].
  unfold hex_value. destruct ds as [|d ds]; [cbn in Hlen; lia|].
  rewrite Hval. f_equal.
Qed.

Lemma fmt_lx_length (v : Z) : (1 <= List.length (fmt_lx v) <= 16)%nat.
Proof.
  unfold fmt_lx.
  destruct (lx_digits_spec 16 (to_uint64 v) []
              ltac:(change (16 ^ Z.of_nat 16) with (2 ^ 64); apply to_uint64_range)
              ltac:(lia)) as (ds & Heq & Hlen & _).
  rewrite Heq, app_nil_r. exact Hlen.
Qed.

Lemma hex_value_of_char_range (c : byte) (d : Z) :
  hex_value_of_char c = Some d -> 0 <= d < 16.
Proof.
  unfold hex_value_of_char.
  destruct ((48 <=? byte_unsigned c) && (byte_unsigned c <=? 57)) eqn:E1.
  - intros [= <-]. apply andb_true_iff in E1. lia.
  - destruct ((97 <=? byte_unsigned c) && (byte_unsigned c <=? 102)) eqn:E2;
      [|discriminate].
    intros [= <-]. apply andb_true_iff in E2. lia.
Qed.

(** A numeral of [n] digits read after [a] is below [(a + 1) * 16^n]. *)
Lemma hex_value_from_below (s : list byte) :
  forall a r,
    0 <= a -> hex_value_from a s = Some r ->
    r < (a + 1) * 16 ^ Z.of_nat (List.length s).
Proof.
  induction s as [|c s IH]; intros a r Ha Hr; cbn [hex_value_from List.length] in *.
  - injection Hr as <-. change (16 ^ Z.of_nat 0) with 1. lia.
  - destruct (hex_value_of_char c) as [d|] eqn:Hc; [|discriminate].
    pose proof (hex_value_of_char_range c d Hc) as Hd.
    specialize (IH (a * 16 + d) r ltac:(lia) Hr).
    rewrite Nat2Z.inj_succ, Z.pow_succ_r by lia. nia.
Qed.

(** Sixteen digits are printed exactly for the values of 2^60 and more. *)
Lemma fmt_lx_16_digits (v : Z) :
  2 ^ 60 <= v < 2 ^ 64 -> List.length (fmt_lx v) = 16%nat.
Proof.
  intros Hv.
  destruct (fmt_lx_natural_hex v ltac:(lia)) as [[Hval _] Hlen].
  destruct (Nat.eq_dec (List.length (fmt_lx v)) 16) as [E|E]; [exact E|exfalso].
  unfold hex_value in Hval.
  destruct (fmt_lx v) as [|c ds] eqn:Hds; [discriminate|].
  pose proof (hex_value_from_below (c :: ds) 0 v ltac:(lia) Hval) as Hbelow.
  assert (Hshort : Z.of_nat (List.length (c :: ds)) <= 15) by lia.
  assert (Hpow : 16 ^ Z.of_nat (List.length (c :: ds)) <= 16 ^ 15)
    by (apply Z.pow_le_mono_r; lia).
  change (16 ^ 15) with (2 ^ 60) in Hpow. lia.
Qed.

Lemma cstr_idempotent (s : list byte) : cstr (cstr s) = cstr s.
Proof.
  induction s as [|c s IH]; cbn [cstr]; [reflexivity|].
  destruct (Byte.eqb c "000"%byte) eqn:E; cbn [cstr]; [reflexivity|].
  rewrite E, IH. reflexivity.
Qed.

Lemma strlen_TSstrdup (s : list byte) : strlen (TSstrdup s) = strlen s.
Proof. unfold strlen, TSstrdup. now rewrite cstr_idempotent. Qed.

Lemma strlen_nonneg (s : list byte) : 0 <= strlen s.
Proof. unfold strlen. lia. Qed.

(** With the precision [strlen s], ["%.*s"] prints the whole string. *)
Lemma fmt_prec_s_strlen (s : list byte) : fmt_prec_s (strlen s) s = cstr s.
Proof.
  unfold fmt_prec_s, strlen.
  destruct (Z.of_nat (List.length (cstr s)) <? 0) eqn:E; [reflexivity|].
  rewrite Nat2Z.id. apply firstn_all.
Qed.

(** With a precision that is not negative, ["%.*s"] prints no more bytes
    than the precision. *)
Lemma fmt_prec_s_length (prec : Z) (s : list byte) :
  0 <= prec -> Z.of_nat (List.length (fmt_prec_s prec s)) <= prec.
Proof.
  intros Hp. unfold fmt_prec_s.
  destruct (prec <? 0) eqn:E; [apply Z.ltb_lt in E; lia|].
  rewrite length_firstn. lia.
Qed.

Lemma sprintf_result_fits (chars : list byte) :
  Z.of_nat (List.length chars) <= INT_MAX ->
  sprintf_result chars = Z.of_nat (List.length chars).
Proof.
  intros Hfit. unfold sprintf_result.
  destruct (Z.of_nat (List.length chars) <=? INT_MAX) eqn:E; [reflexivity|].
  apply Z.leb_gt in E. lia.
Qed.

Lemma fmt_hash_host_length (v prec : Z) (s : list byte) :
  List.length (fmt_hash_host v prec s)
  = (List.length (fmt_lx v) + 1 + List.length (fmt_prec_s prec s))%nat.
Proof.
  unfold fmt_hash_host. rewrite length_app. cbn [List.length]. lia.
Qed.

(** ** Storing into the scratch buffer *)

Lemma store_bytes_length (buf data : list byte) :
  List.length (fst (store_bytes buf data)) = List.length buf.
Proof.
  unfold store_bytes. cbn [fst].
  rewrite length_app, length_firstn, length_skipn. lia.
Qed.

Lemma store_bytes_prefix (n : nat) (buf data : list byte) :
  (n <= List.length buf)%nat -> (n <= List.length data)%nat ->
  firstn n (fst (store_bytes buf data)) = firstn n data.
Proof.
  intros Hb Hd. unfold store_bytes. cbn [fst].
  rewrite firstn_app, firstn_firstn, length_firstn.
  replace (n - Nat.min (List.length buf) (List.length data))%nat with 0%nat by lia.
  replace (Nat.min n (List.length buf)) with n by lia.
  cbn [firstn]. apply app_nil_r.
Qed.

(** The characters stored before the terminator are read back. *)
Lemma store_bytes_written (buf chars : list byte) (last : byte) :
  (List.length chars <= List.length buf)%nat ->
  firstn (List.length chars) (fst (store_bytes buf (chars ++ [last]))) = chars.
Proof.
  intros Hfit. rewrite store_bytes_prefix.
  - rewrite firstn_app, Nat.sub_diag, firstn_all. cbn [firstn].
    apply app_nil_r.
  - exact Hfit.
  - rewrite length_app. lia.
Qed.

Lemma store_bytes_fits (buf data : list byte) :
  (List.length data <= List.length buf)%nat -> snd (store_bytes buf data) = [].
Proof.
  intros H. unfold store_bytes. cbn [snd]. now apply skipn_all2.
Qed.

Lemma store_bytes_one_over (buf data : list byte) (last : byte) :
  List.length data = List.length buf ->
  snd (store_bytes buf (data ++ [last])) = [last].
Proof.
  intros H. unfold store_bytes. cbn [snd].
  rewrite <- H, skipn_app, skipn_all, Nat.sub_diag. reflexivity.
Qed.

(** ** The constructor *)

Lemma host_argv_third (tokens : list (list byte)) :
  (2 <= List.length tokens)%nat ->
  nth_error (host_argv tokens) 2
  = Some (nth_error tokens 2).
Proof.
  intros Hlen. unfold host_argv.
  destruct tokens as [|t0 [|t1 [|t2 rest]]]; cbn in Hlen; try lia; reflexivity.
Qed.

Lemma host_new_instance_short (tokens : list (list byte)) :
  (List.length tokens < 3)%nat ->
  host_new_instance tokens = Some (-1, None, missing_parameters).
Proof.
  intros Hlen. unfold host_new_instance, TSRemapNewInstance, host_argc.
  destruct (Z.of_nat (List.length tokens) <? 2) eqn:E; [reflexivity|].
  apply Z.ltb_ge in E.
  rewrite host_argv_third by lia.
  destruct tokens as [|t0 [|t1 [|t2 rest]]]; cbn in Hlen, E; try lia.
  reflexivity.
Qed.

Lemma host_new_instance_third (tokens : list (list byte)) (s : list byte) :
  nth_error tokens 2 = Some s ->
  host_new_instance tokens = Some (0, Some (instance_for s), []).
Proof.
  intros Hs. unfold host_new_instance, TSRemapNewInstance, host_argc.
  assert (Hlen : (3 <= List.length tokens)%nat).
  { assert (2 < List.length tokens)%nat; [|lia].
    apply nth_error_Some. rewrite Hs. discriminate. }
  destruct (Z.of_nat (List.length tokens) <? 2) eqn:E;
    [apply Z.ltb_lt in E; lia|].
  rewrite host_argv_third by lia. rewrite Hs.
  unfold instance_for. rewrite strlen_TSstrdup. reflexivity.
Qed.

(** The vector Traffic Server passes is never read outside its bounds. *)
Lemma host_new_instance_defined (tokens : list (list byte)) :
  host_new_instance tokens <> None.
Proof.
  destruct (nth_error tokens 2) as [s|] eqn:E.
  - rewrite (host_new_instance_third tokens s E). discriminate.
  - rewrite host_new_instance_short; [discriminate|].
    apply nth_error_None in E. lia.
Qed.

(** The fields of the instance for a suffix whose length fits an [int]:
    the capacity is 16 + suffix length + 1, which leaves no byte for the
    terminator that [sprintf] appends to a digest of 16 digits. *)
Lemma instance_for_fields (s : list byte) :
  strlen s <= INT_MAX ->
  isp_name (instance_for s) = cstr s
  /\ isp_name_len (instance_for s) = strlen s
  /\ hash_len (instance_for s) = 16 + strlen s + 1.
Proof.
  intros Hs. pose proof (strlen_nonneg s) as Hn. unfold INT_MAX in Hs.
  unfold instance_for. cbn [isp_name isp_name_len hash_len].
  rewrite to_int_small by (unfold INT_MAX; lia).
  rewrite (to_uint64_small (strlen s)) by lia.
  rewrite to_uint64_small by lia.
  repeat split.
Qed.

(** ** The per-request transform *)

Section TransformFacts.

Variable k : char_kind.
Context {Url : Type} {api : UrlApi Url}.

Lemma request_digest_concat (url : Url) :
  request_digest k url = hash_fnv64 k (TSUrlHostGet url ++ TSUrlPathGet url).
Proof.
  unfold request_digest, hash_fnv64.
  rewrite hash_fnv64_continue_is_loop, hash_fnv64_loop_app. reflexivity.
Qed.

Lemma request_digest_range (url : Url) : 0 <= request_digest k url < 2 ^ 64.
Proof. rewrite request_digest_concat. apply hash_fnv64_range. Qed.

(** The branch [len > hash->hash_len]: nothing is given to
    [TSUrlHostSet] and the request is left as it was. *)
Lemma remap_length_check_fails (h : hash_remap_struct) (url : Url) :
  hash_len h < to_uint64 (sprintf_result (formatted k h url)) ->
  status (TSRemapDoRemap k (Some h) (Some url)) = TSREMAP_NO_REMAP
  /\ host_set_arg (TSRemapDoRemap k (Some h) (Some url)) = None
  /\ request_after (TSRemapDoRemap k (Some h) (Some url)) = Some url.
Proof.
  intros Hlen. unfold TSRemapDoRemap. cbv zeta.
  fold (request_digest k url). fold (formatted k h url).
  apply Z.gtb_lt in Hlen. rewrite Hlen. repeat split.
Qed.

(** Past the length check the outcome is what [TSUrlHostSet] answers to
    the first [len] bytes of the buffer. *)
Lemma remap_length_check_passes (h : hash_remap_struct) (url : Url) :
  to_uint64 (sprintf_result (formatted k h url)) <= hash_len h ->
  let stored := store_bytes (repeat "000"%byte (Z.to_nat (hash_len h)))
                            (formatted k h url ++ ["000"%byte]) in
  let arg := firstn (Z.to_nat (sprintf_result (formatted k h url)))
                    (fst stored) in
  let out := TSRemapDoRemap k (Some h) (Some url) in
  host_set_arg out = Some arg
  /\ scratch out = Some (fst stored)
  /\ overrun out = snd stored
  /\ request_after out = Some (snd (TSUrlHostSet url arg))
  /\ status out = match fst (TSUrlHostSet url arg) with
                  | TS_SUCCESS => TSREMAP_DID_REMAP
                  | TS_ERROR => TSREMAP_NO_REMAP
                  end.
Proof.
  intros Hlen. unfold TSRemapDoRemap. cbv zeta.
  fold (request_digest k url). fold (formatted k h url).
  destruct (to_uint64 (sprintf_result (formatted k h url)) >? hash_len h) eqn:E;
    [apply Z.gtb_lt in E; lia|].
  destruct (TSUrlHostSet url _) as [[|] url']; repeat split.
Qed.

(** The formatted length with a precision that is an [int] of 0 or
    more: the digits, the dot, and at most [isp_name_len] bytes. *)
Lemma formatted_length (h : hash_remap_struct) (url : Url) :
  0 <= isp_name_len h ->
  1 + 1 <= Z.of_nat (List.length (formatted k h url))
         <= 16 + 1 + isp_name_len h.
Proof.
  intros Hprec. unfold formatted. rewrite fmt_hash_host_length.
  pose proof (fmt_lx_length (request_digest k url)).
  pose proof (fmt_prec_s_length (isp_name_len h) (isp_name h) Hprec).
  lia.
Qed.

(** For the instance built for the suffix [s], the formatted characters
    are the digits, the dot and the suffix. *)
Lemma formatted_instance_for (s : list byte) (url : Url) :
  strlen s <= INT_MAX ->
  formatted k (instance_for s) url
  = fmt_lx (request_digest k url) ++ "."%byte :: cstr s.
Proof.
  intros Hs. destruct (instance_for_fields s Hs) as (Hn & Hl & _).
  unfold formatted, fmt_hash_host. rewrite Hn, Hl.
  rewrite <- (strlen_TSstrdup s). unfold TSstrdup.
  rewrite fmt_prec_s_strlen, cstr_idempotent. reflexivity.
Qed.

Lemma formatted_instance_for_length (s : list byte) (url : Url) :
  strlen s <= INT_MAX ->
  Z.of_nat (List.length (formatted k (instance_for s) url))
  = Z.of_nat (List.length (fmt_lx (request_digest k url))) + 1 + strlen s.
Proof.
  intros Hs. rewrite formatted_instance_for by exact Hs.
  rewrite length_app. cbn [List.length]. unfold strlen. lia.
Qed.

(** What a request does under the instance built for the suffix [s]:
    the length check passes, and [TSUrlHostSet] receives the formatted
    characters, which are also the head of the buffer. *)
Lemma remap_instance_for (s : list byte) (url : Url) :
  strlen s <= INT_MAX - 17 ->
  let chars := fmt_lx (request_digest k url) ++ "."%byte :: cstr s in
  let out := TSRemapDoRemap k (Some (instance_for s)) (Some url) in
  host_set_arg out = Some chars
  /\ (exists buf, scratch out = Some buf
                  /\ Z.of_nat (List.length buf) = 16 + strlen s + 1
                  /\ firstn (List.length chars) buf = chars)
  /\ request_after out = Some (snd (TSUrlHostSet url chars))
  /\ status out = match fst (TSUrlHostSet url chars) with
                  | TS_SUCCESS => TSREMAP_DID_REMAP
                  | TS_ERROR => TSREMAP_NO_REMAP
                  end.
Proof.
  intros Hs. cbv zeta.
  assert (Hs' : strlen s <= INT_MAX) by lia.
  pose proof (strlen_nonneg s) as Hnn.
  destruct (instance_for_fields s Hs') as (_ & _ & Hcap).
  pose proof (formatted_instance_for s url Hs') as Hchars.
  pose proof (formatted_instance_for_length s url Hs') as Hlen.
  pose proof (fmt_lx_length (request_digest k url)) as Hlx.
  set (h := instance_for s) in *.
  set (chars := formatted k h url) in *.
  assert (Hres : sprintf_result chars = Z.of_nat (List.length chars))
    by (apply sprintf_result_fits; lia).
  assert (Hfit : to_uint64 (sprintf_result chars) <= hash_len h).
  { rewrite Hres, to_uint64_small; unfold INT_MAX in *; lia. }
  destruct (remap_length_check_passes h url Hfit)
    as (Harg & Hscr & _ & Hreq & Hst).
  fold chars in Harg, Hscr, Hreq, Hst.
  rewrite Hres, Nat2Z.id in Harg, Hreq, Hst.
  assert (Hprefix :
    firstn (List.length chars)
      (fst (store_bytes (repeat "000"%byte (Z.to_nat (hash_len h)))
                        (chars ++ ["000"%byte]))) = chars).
  { apply store_bytes_written. rewrite repeat_length. lia. }
  rewrite Hprefix in Harg, Hreq, Hst. rewrite <- Hchars.
  split; [exact Harg|]. split; [|split; [exact Hreq|exact Hst]].
  eexists. split; [exact Hscr|]. split; [|exact Hprefix].
  rewrite store_bytes_length, repeat_length. lia.
Qed.

(** Under that instance the terminator of a digest of 16 digits is
    stored one byte past the end of the buffer. *)
Lemma remap_instance_for_overrun (s : list byte) (url : Url) :
  strlen s <= INT_MAX - 17 ->
  2 ^ 60 <= request_digest k url ->
  overrun (TSRemapDoRemap k (Some (instance_for s)) (Some url)) = ["000"%byte].
Proof.
  intros Hs Hbig.
  assert (Hs' : strlen s <= INT_MAX) by lia.
  pose proof (strlen_nonneg s) as Hnn.
  pose proof (request_digest_range url) as Hr.
  destruct (instance_for_fields s Hs') as (_ & _ & Hcap).
  pose proof (formatted_instance_for_length s url Hs') as Hlen.
  rewrite (fmt_lx_16_digits (request_digest k url)) in Hlen by lia.
  set (h := instance_for s) in *.
  assert (Hres : sprintf_result (formatted k h url)
                 = Z.of_nat (List.length (formatted k h url)))
    by (apply sprintf_result_fits; lia).
  assert (Hfit : to_uint64 (sprintf_result (formatted k h url)) <= hash_len h).
  { rewrite Hres, to_uint64_small; unfold INT_MAX in *; lia. }
  destruct (remap_length_check_passes h url Hfit) as (_ & _ & Hover & _).
  rewrite Hover. apply store_bytes_one_over.
  rewrite repeat_length. lia.
Qed.

End TransformFacts.

(* ================================================================== *)
(** * Part III: the properties of the specification *)
(* ================================================================== *)

(** ** C1: the digest of a span *)

(** C1 (as the code behaves where plain [char] is signed, e.g. x86-64):
    the span of the single byte 0x80.  The specified digest multiplies the
    seed by the prime and XORs 0x80; the code XORs the sign-extended
    0xffffffffffffff80 instead, so the digests differ in their upper 56
    bits.  Where plain [char] is unsigned, and on spans of bytes below
    0x80, the two agree ([hash_fnv64_unsigned_char_spec],
    [hash_fnv64_ascii_spec]). *)
Theorem hash_fnv64_signed_char_byte_0x80 :
  spec_digest ["128"%byte] = 0xaf63bd4c8601b75f
  /\ hash_fnv64 UnsignedChar ["128"%byte] = 0xaf63bd4c8601b75f
  /\ hash_fnv64 SignedChar ["128"%byte] = 0x509c42b379fe485f
  /\ hash_fnv64 SignedChar ["128"%byte] <> spec_digest ["128"%byte].
Proof.
  split; [vm_compute; reflexivity|].
  split; [vm_compute; reflexivity|].
  split; [vm_compute; reflexivity|].
  vm_compute. discriminate.
Qed.

(** ** C2: the capacity of the scratch buffer *)

(** The part of the capacity statement that holds: under the instance
    built for the suffix [s], the formatted length, terminator excluded,
    is at most 16 + 1 + the suffix length. *)
Lemma formatted_length_at_most
      (k : char_kind) {Url : Type} {api : UrlApi Url}
      (s : list byte) (url : Url) :
  strlen s <= INT_MAX ->
  Z.of_nat (List.length (formatted k (instance_for s) url))
  <= 16 + 1 + strlen s.
Proof.
  intros Hs. rewrite formatted_instance_for_length by exact Hs.
  pose proof (fmt_lx_length (request_digest k url)). lia.
Qed.

(** C2 (as the code behaves): for the rule of the plugin's documentation,
    suffix [tlmc.isp.example] of 16 bytes, the buffer is allocated with
    33 bytes where 16 + 1 + 16 + 1 = 34 are specified, and the request for
    host [www.example] formats 33 characters and stores 34 bytes: the
    terminating NUL lands one byte past the end of the buffer. *)
Theorem scratch_one_byte_short (k : char_kind) :
  host_new_instance doc_rule = Some (0, Some doc_instance, [])
  /\ strlen (isp_name doc_instance) = 16
  /\ hash_len doc_instance = 33
  /\ hash_len doc_instance < 16 + 1 + strlen (isp_name doc_instance) + 1
  /\ Z.of_nat (List.length (formatted k doc_instance doc_request)) = 33
  /\ Z.of_nat (List.length (formatted k doc_instance doc_request
                            ++ ["000"%byte]))
     > hash_len doc_instance
  /\ overrun (TSRemapDoRemap k (Some doc_instance) (Some doc_request))
     = ["000"%byte].
Proof.
  destruct k; repeat split; vm_compute; reflexivity.
Qed.

(** ** C3: validation of the arguments *)

(** C3 (counterexample): with the empty string as third token the
    constructor returns 0 and an instance whose suffix has length 0, so
    the rule as the specification words it does not hold. *)
Lemma empty_suffix_is_accepted :
  host_new_instance [bytes "from"; bytes "to"; []]
  = Some (0, Some {| isp_name := []; isp_name_len := 0; hash_len := 17 |}, [])
  /\ ~ empty_or_missing_suffix_rejected.
Proof.
  split; [vm_compute; reflexivity|].
  intros Hrule.
  destruct (Hrule [bytes "from"; bytes "to"; []]) as [msgs Hfail].
  - right. exists []. split; reflexivity.
  - vm_compute in Hfail. discriminate.
Qed.

(** C3 (amended): with fewer than three tokens the construction fails:
    it returns -1 and stores no instance; with three tokens or more it
    succeeds, whatever the third token is (the empty string too): it
    returns 0 and the instance holding the bytes of the third token, their
    length, and a buffer capacity of 16 + that length + 1. *)
Theorem new_instance_validation (tokens : list (list byte)) :
  ((List.length tokens < 3)%nat ->
     host_new_instance tokens = Some (-1, None, missing_parameters))
  /\ ((3 <= List.length tokens)%nat ->
        exists s,
          nth_error tokens 2 = Some s
          /\ host_new_instance tokens = Some (0, Some (instance_for s), [])
          /\ isp_name (instance_for s) = cstr s
          /\ (strlen s <= INT_MAX ->
                isp_name_len (instance_for s) = strlen s
                /\ hash_len (instance_for s) = 16 + strlen s + 1)).
Proof.
  split.
  - apply host_new_instance_short.
  - intros Hlen.
    destruct (nth_error tokens 2) as [s|] eqn:E.
    + exists s. split; [reflexivity|].
      split; [now apply host_new_instance_third|].
      split; [reflexivity|].
      intros Hs. destruct (instance_for_fields s Hs) as (_ & H1 & H2).
      now split.
    + apply nth_error_None in E. lia.
Qed.

(** Both branches of [new_instance_validation]: a rule without parameter
    and the rule of the documentation. *)
Lemma new_instance_validation_witness :
  host_new_instance [bytes "from"; bytes "to"]
  = Some (-1, None, missing_parameters)
  /\ exists s,
       nth_error doc_rule 2 = Some s
       /\ host_new_instance doc_rule = Some (0, Some (instance_for s), [])
       /\ isp_name (instance_for s) = cstr s
       /\ (strlen s <= INT_MAX ->
             isp_name_len (instance_for s) = strlen s
             /\ hash_len (instance_for s) = 16 + strlen s + 1).
Proof.
  split.
  - apply (new_instance_validation [bytes "from"; bytes "to"]).
    cbn. lia.
  - apply (new_instance_validation doc_rule).
    cbn. lia.
Defined.

(** ** C4: hashing in two steps *)

(** C4: hashing [h] in one shot and folding [p] into the result with the
    continuation form gives the digest of hashing [h ++ p] in one pass. *)
Theorem hash_fnv64_concatenation (k : char_kind) (h p : list byte) :
  hash_fnv64_continue k p (hash_fnv64 k h) = hash_fnv64 k (h ++ p).
Proof.
  unfold hash_fnv64.
  rewrite hash_fnv64_continue_is_loop, hash_fnv64_loop_app.
  reflexivity.
Qed.

(** The vector of the plugin's documentation: [http://www.example/hello/world]
    is hashed as [www.examplehello/world]. *)
Example hash_fnv64_hello_world (k : char_kind) :
  hash_fnv64_continue k (bytes "hello/world") (hash_fnv64 k (bytes "www.example"))
  = hash_fnv64 k (bytes "www.examplehello/world").
Proof. destruct k; vm_compute; reflexivity. Qed.

(** ** C5: what is hashed and what is handed to the host *)

(** C5: under the instance built for a rule, the digest of a request is
    the hash of the host bytes followed directly by the path bytes, and
    the bytes stored at the head of the scratch buffer and given to
    [TSUrlHostSet] are the natural lowercase hexadecimal numeral of the
    digest (no fixed width, no padding, no prefix), a dot, and the bytes of
    the suffix token. *)
Theorem remap_host_is_hex_digest_dot_suffix
        (k : char_kind) {Url : Type} {api : UrlApi Url}
        (tokens : list (list byte)) (h : hash_remap_struct)
        (msgs : list string) (url : Url) :
  host_new_instance tokens = Some (0, Some h, msgs) ->
  strlen (isp_name h) <= INT_MAX - 17 ->
  exists s digest,
    nth_error tokens 2 = Some s
    /\ isp_name h = cstr s
    /\ digest = hash_fnv64_continue k (TSUrlPathGet url)
                  (hash_fnv64 k (TSUrlHostGet url))
    /\ digest = hash_fnv64 k (TSUrlHostGet url ++ TSUrlPathGet url)
    /\ natural_hex (fmt_lx digest) digest
    /\ host_set_arg (TSRemapDoRemap k (Some h) (Some url))
       = Some (fmt_lx digest ++ "."%byte :: cstr s)
    /\ exists buf,
         scratch (TSRemapDoRemap k (Some h) (Some url)) = Some buf
         /\ firstn (List.length (fmt_lx digest ++ "."%byte :: cstr s)) buf
            = fmt_lx digest ++ "."%byte :: cstr s.
Proof.
  intros Hnew Hlen.
  destruct (nth_error tokens 2) as [s|] eqn:E.
  2:{ apply nth_error_None in E.
      rewrite host_new_instance_short in Hnew by lia. discriminate. }
  rewrite (host_new_instance_third tokens s E) in Hnew.
  injection Hnew as <- _.
  assert (Hs : strlen s <= INT_MAX - 17).
  { cbn [isp_name instance_for] in Hlen.
    now rewrite <- (strlen_TSstrdup s). }
  exists s, (request_digest k url).
  split; [reflexivity|]. split; [reflexivity|]. split; [reflexivity|].
  split; [apply request_digest_concat|].
  split; [apply fmt_lx_natural_hex, request_digest_range|].
  destruct (remap_instance_for k s url Hs) as (Harg & (buf & Hb & _ & Hp) & _).
  split; [exact Harg|].
  exists buf. now split.
Qed.

(** The rule and the request of the plugin's documentation. *)
Lemma remap_host_is_hex_digest_dot_suffix_witness :
  exists s digest,
    nth_error doc_rule 2 = Some s
    /\ isp_name doc_instance = cstr s
    /\ digest = hash_fnv64_continue SignedChar (url_path doc_request)
                  (hash_fnv64 SignedChar (url_host doc_request))
    /\ digest = hash_fnv64 SignedChar
                  (url_host doc_request ++ url_path doc_request)
    /\ natural_hex (fmt_lx digest) digest
    /\ host_set_arg
         (TSRemapDoRemap SignedChar (Some doc_instance) (Some doc_request))
       = Some (fmt_lx digest ++ "."%byte :: cstr s)
    /\ exists buf,
         scratch
           (TSRemapDoRemap SignedChar (Some doc_instance) (Some doc_request))
         = Some buf
         /\ firstn (List.length (fmt_lx digest ++ "."%byte :: cstr s)) buf
            = fmt_lx digest ++ "."%byte :: cstr s.
Proof.
  refine (remap_host_is_hex_digest_dot_suffix
            SignedChar doc_rule doc_instance [] doc_request _ _).
  - vm_compute. reflexivity.
  - vm_compute. discriminate.
Defined.

(** [http://www.example/] under the suffix [tlmc.isp.example] is sent to
    [24d4dc434ba8a1da.tlmc.isp.example], as the documentation says. *)
Example remap_documented_host (k : char_kind) :
  host_set_arg (TSRemapDoRemap k (Some doc_instance) (Some doc_request))
  = Some (bytes "24d4dc434ba8a1da.tlmc.isp.example").
Proof. destruct k; vm_compute; reflexivity. Qed.

(** ** C6: zero-length spans *)

(** C6: the hash of the empty span is the seed 0xcbf29ce484222325, which
    ["%lx"] prints as [cbf29ce484222325]; folding the empty span into a
    digest with the continuation form leaves the digest as it is. *)
Theorem hash_fnv64_empty_span (k : char_kind) (digest : Z) :
  hash_fnv64 k [] = 0xcbf29ce484222325
  /\ fmt_lx (hash_fnv64 k []) = bytes "cbf29ce484222325"
  /\ hash_fnv64_continue k [] digest = digest.
Proof.
  split; [reflexivity|]. split; [vm_compute; reflexivity|reflexivity].
Qed.

(** ** C7: a rejected host-set *)

(** C7: when [TSUrlHostSet] rejects the bytes it is given, the transform
    returns [TSREMAP_NO_REMAP] and does nothing after it: the request is
    as [TSUrlHostSet] left it, which, for a host that leaves the URL of a
    rejected call unmodified, has the host it had before. *)
Theorem remap_host_set_rejected
        (k : char_kind) {Url : Type} {api : UrlApi Url}
        (ih : option hash_remap_struct) (url url' : Url) (s : list byte) :
  host_set_arg (TSRemapDoRemap k ih (Some url)) = Some s ->
  TSUrlHostSet url s = (TS_ERROR, url') ->
  status (TSRemapDoRemap k ih (Some url)) = TSREMAP_NO_REMAP
  /\ request_after (TSRemapDoRemap k ih (Some url)) = Some url'
  /\ (rejected_set_keeps_host api ->
        option_map TSUrlHostGet (request_after (TSRemapDoRemap k ih (Some url)))
        = Some (TSUrlHostGet url)).
Proof.
  intros Harg Hrej.
  assert (Hout : status (TSRemapDoRemap k ih (Some url)) = TSREMAP_NO_REMAP
                 /\ request_after (TSRemapDoRemap k ih (Some url)) = Some url').
  { destruct ih as [h|]; [|discriminate Harg].
    destruct (Z_lt_le_dec (hash_len h)
                (to_uint64 (sprintf_result (formatted k h url)))) as [Hlt|Hle].
    - destruct (remap_length_check_fails k h url Hlt) as (_ & Hnone & _).
      rewrite Hnone in Harg. discriminate.
    - destruct (remap_length_check_passes k h url Hle)
        as (Ha & _ & _ & Hreq & Hst).
      set (arg := firstn _ _) in Ha, Hreq, Hst. clearbody arg.
      rewrite Ha in Harg. injection Harg as Harg. subst arg.
      rewrite Hrej in Hreq, Hst. now split. }
  destruct Hout as [Hst Hreq].
  split; [exact Hst|]. split; [exact Hreq|].
  intros Hkeep. rewrite Hreq. cbn [option_map]. f_equal.
  exact (Hkeep url url' s Hrej).
Qed.

(** The request whose URL cannot be written: the fallback of the
    plugin's documentation. *)
Lemma remap_host_set_rejected_witness :
  status (TSRemapDoRemap SignedChar (Some doc_instance) (Some locked_request))
  = TSREMAP_NO_REMAP
  /\ request_after
       (TSRemapDoRemap SignedChar (Some doc_instance) (Some locked_request))
     = Some locked_request
  /\ (rejected_set_keeps_host simple_api ->
        option_map TSUrlHostGet
          (request_after
             (TSRemapDoRemap SignedChar (Some doc_instance)
                (Some locked_request)))
        = Some (TSUrlHostGet locked_request)).
Proof.
  refine (remap_host_set_rejected
            SignedChar (Some doc_instance) locked_request locked_request
            (bytes "24d4dc434ba8a1da.tlmc.isp.example") _ _).
  - vm_compute. reflexivity.
  - vm_compute. reflexivity.
Defined.

(** ** C8: NULL pointers *)

(** C8: when the instance pointer or the request pointer is NULL the
    transform returns [TSREMAP_NO_REMAP] at once: the request is as it
    was, [TSUrlHostSet] is not called and the buffer is not written. *)
Theorem remap_null_pointer
        (k : char_kind) {Url : Type} {api : UrlApi Url}
        (ih : option hash_remap_struct) (rri : option Url) :
  ih = None \/ rri = None ->
  status (TSRemapDoRemap k ih rri) = TSREMAP_NO_REMAP
  /\ request_after (TSRemapDoRemap k ih rri) = rri
  /\ host_set_arg (TSRemapDoRemap k ih rri) = None
  /\ scratch (TSRemapDoRemap k ih rri) = None
  /\ overrun (TSRemapDoRemap k ih rri) = [].
Proof.
  intros [-> | ->].
  - destruct rri; repeat split.
  - repeat split.
Qed.

(** A NULL instance with a request, and an instance with a NULL request. *)
Lemma remap_null_pointer_witness :
  (status (TSRemapDoRemap SignedChar None (Some doc_request))
   = TSREMAP_NO_REMAP
   /\ request_after (TSRemapDoRemap SignedChar None (Some doc_request))
      = Some doc_request
   /\ host_set_arg (TSRemapDoRemap SignedChar None (Some doc_request)) = None
   /\ scratch (TSRemapDoRemap SignedChar None (Some doc_request)) = None
   /\ overrun (TSRemapDoRemap SignedChar None (Some doc_request)) = [])
  /\ status (TSRemapDoRemap (Url := simple_url) SignedChar
               (Some doc_instance) None)
     = TSREMAP_NO_REMAP.
Proof.
  split.
  - refine (remap_null_pointer SignedChar None (Some doc_request) _).
    left. reflexivity.
  - refine (proj1 (remap_null_pointer (Url := simple_url) SignedChar
                     (Some doc_instance) None _)).
    right. reflexivity.
Defined.

(** ** C9: the length check *)

(** The guard of lines 154-157 on an arbitrary instance structure: a
    formatted length above the capacity of the buffer makes the transform
    return [TSREMAP_NO_REMAP] without calling [TSUrlHostSet], the request
    left as it was; and if the capacity were at least
    16 + 1 + suffix length + 1, that branch would not be taken and the
    bytes [sprintf] stores, terminator included, would stay inside the
    buffer.  No instance the constructor builds has that capacity, see
    [length_check_misses_overrun]. *)
Theorem remap_length_check
        (k : char_kind) {Url : Type} {api : UrlApi Url}
        (h : hash_remap_struct) (url : Url) :
  (Z.of_nat (List.length (formatted k h url)) <= INT_MAX ->
   hash_len h < Z.of_nat (List.length (formatted k h url)) ->
     status (TSRemapDoRemap k (Some h) (Some url)) = TSREMAP_NO_REMAP
     /\ host_set_arg (TSRemapDoRemap k (Some h) (Some url)) = None
     /\ request_after (TSRemapDoRemap k (Some h) (Some url)) = Some url)
  /\ (0 <= isp_name_len h <= INT_MAX - 17 ->
      16 + 1 + isp_name_len h + 1 <= hash_len h ->
        to_uint64 (sprintf_result (formatted k h url))
        = Z.of_nat (List.length (formatted k h url))
        /\ Z.of_nat (List.length (formatted k h url)) <= hash_len h
        /\ Z.of_nat (List.length (formatted k h url ++ ["000"%byte]))
           <= hash_len h
        /\ overrun (TSRemapDoRemap k (Some h) (Some url)) = []
        /\ host_set_arg (TSRemapDoRemap k (Some h) (Some url))
           = Some (formatted k h url)).
Proof.
  split.
  - intros Hint Hlong. apply remap_length_check_fails.
    rewrite sprintf_result_fits by exact Hint.
    rewrite to_uint64_small; [exact Hlong|].
    unfold INT_MAX in Hint. lia.
  - intros Hprec Hcap.
    pose proof (formatted_length k h url ltac:(lia)) as Hlen.
    assert (Hres : sprintf_result (formatted k h url)
                   = Z.of_nat (List.length (formatted k h url)))
      by (apply sprintf_result_fits; lia).
    assert (Hsize : to_uint64 (sprintf_result (formatted k h url))
                    = Z.of_nat (List.length (formatted k h url))).
    { rewrite Hres. apply to_uint64_small. unfold INT_MAX in *. lia. }
    split; [exact Hsize|]. split; [lia|].
    assert (Hall : Z.of_nat (List.length (formatted k h url ++ ["000"%byte]))
                   <= hash_len h).
    { rewrite length_app. cbn [List.length]. lia. }
    split; [exact Hall|].
    destruct (remap_length_check_passes k h url ltac:(rewrite Hsize; lia))
      as (Harg & _ & Hover & _).
    split.
    + rewrite Hover. apply store_bytes_fits. rewrite repeat_length. lia.
    + rewrite Harg, Hres, Nat2Z.id. f_equal.
      apply store_bytes_written.
      rewrite repeat_length. lia.
Qed.

(** Two structures written by hand: a buffer of 8 bytes, too short for
    the 33 characters of the request, and a buffer of 34 bytes, the size
    the constructor does not allocate. *)
Lemma remap_length_check_witness :
  (status (TSRemapDoRemap SignedChar (Some short_instance) (Some doc_request))
   = TSREMAP_NO_REMAP
   /\ host_set_arg
        (TSRemapDoRemap SignedChar (Some short_instance) (Some doc_request))
      = None
   /\ request_after
        (TSRemapDoRemap SignedChar (Some short_instance) (Some doc_request))
      = Some doc_request)
  /\ overrun
       (TSRemapDoRemap SignedChar (Some sized_instance) (Some doc_request))
     = [].
Proof.
  split.
  - refine (proj1 (remap_length_check SignedChar short_instance doc_request)
              _ _).
    + vm_compute. discriminate.
    + vm_compute. reflexivity.
  - refine (proj1 (proj2 (proj2 (proj2
             (proj2 (remap_length_check SignedChar sized_instance doc_request)
                _ _))))).
    + vm_compute. split; discriminate.
    + vm_compute. discriminate.
Defined.

(** C9 (as the code behaves): for every instance the constructor builds
    and every request, the capacity is one byte below the sizing invariant
    16 + 1 + suffix length + 1; the test [len > hash->hash_len] is never
    true, so the failure branch is never taken and [TSUrlHostSet] is
    called; and for every digest of 16 digits (2^60 or more) [sprintf] has
    by then stored one byte more than the buffer holds.  The check comes
    after the write and does not count the terminator: it cannot see the
    overrun the constructor's size makes possible. *)
Theorem length_check_misses_overrun
        (k : char_kind) {Url : Type} {api : UrlApi Url}
        (s : list byte) (url : Url) :
  strlen s <= INT_MAX - 17 ->
  hash_len (instance_for s) < 16 + 1 + isp_name_len (instance_for s) + 1
  /\ to_uint64 (sprintf_result (formatted k (instance_for s) url))
     <= hash_len (instance_for s)
  /\ host_set_arg (TSRemapDoRemap k (Some (instance_for s)) (Some url))
     = Some (formatted k (instance_for s) url)
  /\ (2 ^ 60 <= request_digest k url ->
        Z.of_nat (List.length (formatted k (instance_for s) url
                               ++ ["000"%byte]))
        = hash_len (instance_for s) + 1
        /\ overrun (TSRemapDoRemap k (Some (instance_for s)) (Some url))
           = ["000"%byte]).
Proof.
  intros Hs.
  assert (Hs' : strlen s <= INT_MAX) by lia.
  pose proof (strlen_nonneg s) as Hnn.
  pose proof (request_digest_range k url) as Hr.
  destruct (instance_for_fields s Hs') as (_ & Hl & Hcap).
  pose proof (formatted_instance_for_length k s url Hs') as Hlen.
  pose proof (fmt_lx_length (request_digest k url)) as Hlx.
  destruct (remap_instance_for k s url Hs) as (Harg & _).
  split; [rewrite Hl, Hcap; lia|].
  split.
  { rewrite sprintf_result_fits by lia.
    rewrite to_uint64_small; unfold INT_MAX in *; lia. }
  split.
  { rewrite Harg, (formatted_instance_for k s url Hs'). reflexivity. }
  intros Hbig. split.
  - rewrite length_app. cbn [List.length].
    rewrite (fmt_lx_16_digits (request_digest k url)) in Hlen by lia.
    lia.
  - now apply remap_instance_for_overrun.
Qed.

(** The rule and the request of the documentation: 33 bytes allocated,
    34 stored, the test [33 > 33] false, the host set. *)
Lemma length_check_misses_overrun_witness :
  hash_len doc_instance < 16 + 1 + isp_name_len doc_instance + 1
  /\ to_uint64 (sprintf_result (formatted SignedChar doc_instance doc_request))
     <= hash_len doc_instance
  /\ host_set_arg
       (TSRemapDoRemap SignedChar (Some doc_instance) (Some doc_request))
     = Some (formatted SignedChar doc_instance doc_request)
  /\ Z.of_nat (List.length (formatted SignedChar doc_instance doc_request
                            ++ ["000"%byte]))
     = hash_len doc_instance + 1
  /\ overrun
       (TSRemapDoRemap SignedChar (Some doc_instance) (Some doc_request))
     = ["000"%byte].
Proof.
  destruct (length_check_misses_overrun SignedChar
              (bytes "tlmc.isp.example") doc_request)
    as (Hcap & Hpass & Harg & Hover).
  - vm_compute. discriminate.
  - split; [exact Hcap|]. split; [exact Hpass|]. split; [exact Harg|].
    apply Hover. vm_compute. discriminate.
Defined.

(** ** C10: the two loops *)

(** C10: the continuation form started from the seed 0xcbf29ce484222325
    yields the digest of the one-shot hash of the same span. *)
Theorem hash_fnv64_continue_from_seed (k : char_kind) (span : list byte) :
  hash_fnv64_continue k span 0xcbf29ce484222325 = hash_fnv64 k span.
Proof.
  unfold hash_fnv64, FNV1_64_INIT.
  generalize 0xcbf29ce484222325.
  induction span as [|c span IH]; intros seed; cbn [hash_fnv64_continue hash_fnv64_loop].
  - reflexivity.
  - apply IH.
Qed.

(* ================================================================== *)
(** * Part IV: further properties of the code *)
(* ================================================================== *)

(** ** The hash engine as a stream *)

Lemma fold_continue_concat (k : char_kind) (chunks : list (list byte)) :
  forall acc,
    fold_left (fun a chunk => hash_fnv64_continue k chunk a) chunks acc
    = hash_fnv64_continue k (List.concat chunks) acc.
Proof.
  induction chunks as [|chunk chunks IH]; intros acc; cbn [fold_left List.concat].
  - reflexivity.
  - rewrite IH, hash_fnv64_continue_app. reflexivity.
Qed.

(** X1: feeding a span to [hash_fnv64_continue] chunk by chunk, from the
    seed, gives the digest [hash_fnv64] computes over the chunks joined,
    however the span is cut (empty chunks included). *)
Theorem hash_fnv64_chunked (k : char_kind) (chunks : list (list byte)) :
  fold_left (fun acc chunk => hash_fnv64_continue k chunk acc)
            chunks FNV1_64_INIT
  = hash_fnv64 k (List.concat chunks).
Proof.
  rewrite fold_continue_concat. unfold hash_fnv64.
  apply hash_fnv64_continue_is_loop.
Qed.

(** ** Plain [char] and the digest *)

(** X2: on a span of bytes below 0x80 the digest does not depend on
    whether plain [char] is signed. *)
Theorem hash_fnv64_ascii_portable (span : list byte) :
  Forall (fun b => byte_unsigned b < 128) span ->
  hash_fnv64 SignedChar span = hash_fnv64 UnsignedChar span.
Proof.
  intros Hascii.
  rewrite (hash_fnv64_ascii_spec SignedChar span Hascii).
  rewrite (hash_fnv64_ascii_spec UnsignedChar span Hascii).
  reflexivity.
Qed.

Lemma hash_fnv64_ascii_portable_witness :
  hash_fnv64 SignedChar (bytes "www.example")
  = hash_fnv64 UnsignedChar (bytes "www.example").
Proof.
  apply (hash_fnv64_ascii_portable (bytes "www.example")).
  repeat constructor.
Defined.

Lemma char_value_signed_mask (b : byte) :
  128 <= byte_unsigned b ->
  to_uint64 (char_value SignedChar b) = Z.lxor (byte_unsigned b) SIGN_BITS.
Proof.
  intros Hb.
  destruct b;
    first [ exfalso; vm_compute in Hb; apply Hb; reflexivity
          | vm_compute; reflexivity ].
Qed.

Lemma lxor_cancel_r (x y c : Z) : Z.lxor x c = Z.lxor y c -> x = y.
Proof.
  intros H.
  rewrite <- (Z.lxor_0_r x), <- (Z.lxor_0_r y), <- (Z.lxor_nilpotent c).
  rewrite <- !Z.lxor_assoc. now rewrite H.
Qed.

Lemma lxor_cancel_l (x y c : Z) : Z.lxor c x = Z.lxor c y -> x = y.
Proof.
  rewrite (Z.lxor_comm c x), (Z.lxor_comm c y). apply lxor_cancel_r.
Qed.

(** X3: where plain [char] is signed, a byte of 0x80 or more at the end
    of a span of bytes below 0x80 flips the upper 56 bits of the digest
    that an unsigned [char] gives: the two kinds of platform disagree on
    such a span. *)
Theorem hash_fnv64_high_byte_flips (prefix : list byte) (b : byte) :
  Forall (fun c => byte_unsigned c < 128) prefix ->
  128 <= byte_unsigned b ->
  hash_fnv64 SignedChar (prefix ++ [b])
  = Z.lxor (hash_fnv64 UnsignedChar (prefix ++ [b])) SIGN_BITS
  /\ hash_fnv64 SignedChar (prefix ++ [b])
     <> hash_fnv64 UnsignedChar (prefix ++ [b]).
Proof.
  intros Hascii Hb.
  assert (Heq : hash_fnv64 SignedChar (prefix ++ [b])
                = Z.lxor (hash_fnv64 UnsignedChar (prefix ++ [b])) SIGN_BITS).
  { unfold hash_fnv64. rewrite !hash_fnv64_loop_app.
    fold (hash_fnv64 SignedChar prefix). fold (hash_fnv64 UnsignedChar prefix).
    rewrite (hash_fnv64_ascii_spec SignedChar prefix Hascii).
    rewrite (hash_fnv64_ascii_spec UnsignedChar prefix Hascii).
    cbn [hash_fnv64_loop].
    rewrite char_value_signed_mask by exact Hb.
    rewrite char_value_unsigned_char.
    symmetry. apply Z.lxor_assoc. }
  split; [exact Heq|].
  rewrite Heq. intros Hsame.
  rewrite <- (Z.lxor_0_r (hash_fnv64 UnsignedChar (prefix ++ [b]))) in Hsame
    at 2.
  apply lxor_cancel_l in Hsame. discriminate Hsame.
Qed.

Lemma hash_fnv64_high_byte_flips_witness :
  hash_fnv64 SignedChar (bytes "caf" ++ ["233"%byte])
  = Z.lxor (hash_fnv64 UnsignedChar (bytes "caf" ++ ["233"%byte])) SIGN_BITS
  /\ hash_fnv64 SignedChar (bytes "caf" ++ ["233"%byte])
     <> hash_fnv64 UnsignedChar (bytes "caf" ++ ["233"%byte]).
Proof.
  apply (hash_fnv64_high_byte_flips (bytes "caf") "233"%byte).
  - repeat constructor.
  - vm_compute. discriminate.
Defined.

(** ** One byte changes the digest *)

(** Multiplying by the prime is invertible modulo 2^64. *)
Lemma mul_prime_inverse (a : Z) :
  0 <= a < 2 ^ 64 ->
  to_uint64 (to_uint64 (a * FNV_64_PRIME) * FNV_64_PRIME_INV) = a.
Proof.
  intros Ha. unfold to_uint64, UINT64_MOD.
  rewrite Z.mul_mod_idemp_l by lia.
  rewrite <- Z.mul_assoc, <- Z.mul_mod_idemp_r by lia.
  replace ((FNV_64_PRIME * FNV_64_PRIME_INV) mod 2 ^ 64) with 1
    by (vm_compute; reflexivity).
  rewrite Z.mul_1_r. apply Z.mod_small. exact Ha.
Qed.

Lemma mul_prime_injective (a b : Z) :
  0 <= a < 2 ^ 64 -> 0 <= b < 2 ^ 64 ->
  to_uint64 (a * FNV_64_PRIME) = to_uint64 (b * FNV_64_PRIME) -> a = b.
Proof.
  intros Ha Hb Heq.
  rewrite <- (mul_prime_inverse a Ha), <- (mul_prime_inverse b Hb), Heq.
  reflexivity.
Qed.

Lemma byte_unsigned_injective (a b : byte) :
  byte_unsigned a = byte_unsigned b -> a = b.
Proof.
  unfold byte_unsigned. intros H. apply N2Z.inj in H.
  pose proof (Byte.of_to_N a) as Ea. pose proof (Byte.of_to_N b) as Eb.
  rewrite H in Ea. congruence.
Qed.

Lemma char_value_injective (k : char_kind) (a b : byte) :
  to_uint64 (char_value k a) = to_uint64 (char_value k b) -> a = b.
Proof.
  intros H. apply byte_unsigned_injective.
  pose proof (byte_unsigned_range a) as Ra.
  pose proof (byte_unsigned_range b) as Rb.
  destruct k.
  - destruct (Z_lt_le_dec (byte_unsigned a) 128) as [La|Ha];
      destruct (Z_lt_le_dec (byte_unsigned b) 128) as [Lb|Hb].
    + now rewrite !char_value_low in H.
    + rewrite char_value_low, char_value_signed_high in H by assumption. lia.
    + rewrite char_value_signed_high, char_value_low in H by assumption. lia.
    + rewrite !char_value_signed_high in H by assumption. lia.
  - now rewrite !char_value_unsigned_char in H.
Qed.

(** The loop is injective in the accumulator it starts from. *)
Lemma hash_fnv64_loop_injective (k : char_kind) (span : list byte) :
  forall h1 h2,
    0 <= h1 < 2 ^ 64 -> 0 <= h2 < 2 ^ 64 ->
    hash_fnv64_loop k span h1 = hash_fnv64_loop k span h2 -> h1 = h2.
Proof.
  induction span as [|c span IH]; intros h1 h2 R1 R2 Heq;
    cbn [hash_fnv64_loop] in Heq.
  - exact Heq.
  - apply IH in Heq; try (apply lxor_uint64; apply to_uint64_range).
    apply lxor_cancel_r in Heq. now apply mul_prime_injective.
Qed.

(** X4: two spans that differ in exactly one byte never have the same
    digest. *)
Theorem hash_fnv64_one_byte_differs
        (k : char_kind) (before after : list byte) (b1 b2 : byte) :
  b1 <> b2 ->
  hash_fnv64 k (before ++ b1 :: after) <> hash_fnv64 k (before ++ b2 :: after).
Proof.
  intros Hne Heq. apply Hne. unfold hash_fnv64 in Heq.
  rewrite !hash_fnv64_loop_app in Heq. cbn [hash_fnv64_loop] in Heq.
  pose proof (hash_fnv64_range k before) as Hr. unfold hash_fnv64 in Hr.
  apply hash_fnv64_loop_injective in Heq;
    try (apply lxor_uint64; apply to_uint64_range).
  apply lxor_cancel_l in Heq. now apply (char_value_injective k).
Qed.

Lemma hash_fnv64_one_byte_differs_witness :
  hash_fnv64 SignedChar (bytes "www" ++ "."%byte :: bytes "example")
  <> hash_fnv64 SignedChar (bytes "www" ++ "-"%byte :: bytes "example").
Proof.
  apply (hash_fnv64_one_byte_differs SignedChar (bytes "www")
           (bytes "example") "."%byte "-"%byte).
  discriminate.
Defined.

(** X5: the continuation form keeps digests apart: continued over the
    same span, two different digests stay different. *)
Theorem hash_fnv64_continue_keeps_apart
        (k : char_kind) (span : list byte) (h1 h2 : Z) :
  0 <= h1 < 2 ^ 64 -> 0 <= h2 < 2 ^ 64 ->
  h1 <> h2 ->
  hash_fnv64_continue k span h1 <> hash_fnv64_continue k span h2.
Proof.
  intros R1 R2 Hne Heq. apply Hne.
  rewrite !hash_fnv64_continue_is_loop in Heq.
  now apply (hash_fnv64_loop_injective k span).
Qed.

Lemma hash_fnv64_continue_keeps_apart_witness :
  hash_fnv64_continue SignedChar (bytes "hello/world")
    (hash_fnv64 SignedChar (bytes "www.example"))
  <> hash_fnv64_continue SignedChar (bytes "hello/world")
       (hash_fnv64 SignedChar (bytes "www.example.org")).
Proof.
  apply (hash_fnv64_continue_keeps_apart SignedChar (bytes "hello/world")).
  - vm_compute. split; [discriminate|reflexivity].
  - vm_compute. split; [discriminate|reflexivity].
  - vm_compute. discriminate.
Defined.

(** ** The request and the host it is given *)

Lemma host_set_arg_of_formatted
      (k : char_kind) {Url : Type} {api : UrlApi Url}
      (h : hash_remap_struct) (url : Url) :
  host_set_arg (TSRemapDoRemap k (Some h) (Some url))
  = if to_uint64 (sprintf_result (formatted k h url)) >? hash_len h
    then None
    else Some (firstn (Z.to_nat (sprintf_result (formatted k h url)))
                 (fst (store_bytes
                         (repeat "000"%byte (Z.to_nat (hash_len h)))
                         (formatted k h url ++ ["000"%byte])))).
Proof.
  destruct (to_uint64 (sprintf_result (formatted k h url)) >? hash_len h) eqn:E.
  - apply Z.gtb_lt in E.
    now destruct (remap_length_check_fails k h url E) as (_ & Hnone & _).
  - assert (Hle : to_uint64 (sprintf_result (formatted k h url)) <= hash_len h).
    { destruct (Z_lt_le_dec (hash_len h)
                  (to_uint64 (sprintf_result (formatted k h url)))) as [Hlt|Hle];
        [|exact Hle].
      apply Z.gtb_lt in Hlt. congruence. }
    now destruct (remap_length_check_passes k h url Hle) as (Harg & _).
Qed.

(** X6: the transform does not see where the host ends and the path
    begins: two requests whose host and path bytes join to the same
    string have the same digest and are given the same host, under every
    instance. *)
Theorem remap_boundary_blind
        (k : char_kind) {Url : Type} {api : UrlApi Url}
        (h : hash_remap_struct) (u1 u2 : Url) :
  TSUrlHostGet u1 ++ TSUrlPathGet u1 = TSUrlHostGet u2 ++ TSUrlPathGet u2 ->
  request_digest k u1 = request_digest k u2
  /\ host_set_arg (TSRemapDoRemap k (Some h) (Some u1))
     = host_set_arg (TSRemapDoRemap k (Some h) (Some u2)).
Proof.
  intros Hjoin.
  assert (Hd : request_digest k u1 = request_digest k u2)
    by (rewrite !request_digest_concat, Hjoin; reflexivity).
  split; [exact Hd|].
  rewrite !host_set_arg_of_formatted. unfold formatted. rewrite Hd.
  reflexivity.
Qed.

Lemma remap_boundary_blind_witness :
  request_digest SignedChar hello_request
  = request_digest SignedChar shifted_request
  /\ host_set_arg
       (TSRemapDoRemap SignedChar (Some doc_instance) (Some hello_request))
     = host_set_arg
         (TSRemapDoRemap SignedChar (Some doc_instance) (Some shifted_request)).
Proof.
  apply (remap_boundary_blind SignedChar doc_instance
           hello_request shifted_request).
  vm_compute. reflexivity.
Defined.

Lemma fmt_lx_injective (a b : Z) :
  0 <= a < 2 ^ 64 -> 0 <= b < 2 ^ 64 -> fmt_lx a = fmt_lx b -> a = b.
Proof.
  intros Ha Hb Heq.
  destruct (fmt_lx_natural_hex a Ha) as [[Hva _] _].
  destruct (fmt_lx_natural_hex b Hb) as [[Hvb _] _].
  rewrite Heq in Hva. congruence.
Qed.

(** X7: under the instance built for a suffix, two requests are given
    the same host exactly when their digests are equal. *)
Theorem remap_same_host_iff_same_digest
        (k : char_kind) {Url : Type} {api : UrlApi Url}
        (s : list byte) (u1 u2 : Url) :
  strlen s <= INT_MAX - 17 ->
  host_set_arg (TSRemapDoRemap k (Some (instance_for s)) (Some u1))
  = host_set_arg (TSRemapDoRemap k (Some (instance_for s)) (Some u2))
  <-> request_digest k u1 = request_digest k u2.
Proof.
  intros Hs.
  destruct (remap_instance_for k s u1 Hs) as (H1 & _).
  destruct (remap_instance_for k s u2 Hs) as (H2 & _).
  rewrite H1, H2. split.
  - intros [= Heq].
    change ("."%byte :: cstr s) with (["."%byte] ++ cstr s) in Heq.
    rewrite !app_assoc in Heq.
    apply app_inv_tail in Heq. apply app_inv_tail in Heq.
    apply fmt_lx_injective; [apply request_digest_range ..|exact Heq].
  - intros Heq. now rewrite Heq.
Qed.

Lemma remap_same_host_iff_same_digest_witness :
  host_set_arg
    (TSRemapDoRemap SignedChar
       (Some (instance_for (bytes "tlmc.isp.example"))) (Some doc_request))
  = host_set_arg
      (TSRemapDoRemap SignedChar
         (Some (instance_for (bytes "tlmc.isp.example"))) (Some hello_request))
  <-> request_digest SignedChar doc_request
      = request_digest SignedChar hello_request.
Proof.
  apply (remap_same_host_iff_same_digest SignedChar
           (bytes "tlmc.isp.example") doc_request hello_request).
  vm_compute. discriminate.
Defined.

Lemma hex_char_is_no_dot (c : byte) (d : Z) :
  hex_value_of_char c = Some d -> Byte.eqb c "."%byte = false.
Proof.
  intros Hc. destruct (Byte.eqb c "."%byte) eqn:E; [|reflexivity].
  apply Byte.byte_dec_bl in E. subst c. discriminate Hc.
Qed.

Lemma split_at_dot_digits (ds : list byte) :
  forall a r rest,
    hex_value_from a ds = Some r ->
    split_at_dot (ds ++ "."%byte :: rest) = Some (ds, rest).
Proof.
  induction ds as [|c ds IH]; intros a r rest Hv;
    cbn [app split_at_dot hex_value_from] in *.
  - reflexivity.
  - destruct (hex_value_of_char c) as [d|] eqn:Hc; [|discriminate].
    rewrite (hex_char_is_no_dot c d Hc).
    now rewrite (IH _ _ rest Hv).
Qed.

Lemma parse_host_formatted (v : Z) (suffix : list byte) :
  0 <= v < 2 ^ 64 ->
  parse_host (fmt_lx v ++ "."%byte :: suffix) = Some (v, suffix).
Proof.
  intros Hv. destruct (fmt_lx_natural_hex v Hv) as [[Hval _] _].
  unfold parse_host.
  assert (Hsplit : split_at_dot (fmt_lx v ++ "."%byte :: suffix)
                   = Some (fmt_lx v, suffix)).
  { unfold hex_value in Hval.
    destruct (fmt_lx v) as [|c ds] eqn:E; [discriminate|].
    exact (split_at_dot_digits (c :: ds) 0 v suffix Hval). }
  rewrite Hsplit, Hval. reflexivity.
Qed.

(** X8: the host given to [TSUrlHostSet] reads back: its label before
    the first dot is the hexadecimal numeral of the digest of the request,
    and what follows that dot is the suffix of the rule. *)
Theorem remap_host_reads_back
        (k : char_kind) {Url : Type} {api : UrlApi Url}
        (s : list byte) (url : Url) :
  strlen s <= INT_MAX - 17 ->
  exists host,
    host_set_arg (TSRemapDoRemap k (Some (instance_for s)) (Some url))
    = Some host
    /\ parse_host host = Some (request_digest k url, cstr s).
Proof.
  intros Hs. destruct (remap_instance_for k s url Hs) as (Harg & _).
  eexists. split; [exact Harg|].
  apply parse_host_formatted, request_digest_range.
Qed.

Lemma remap_host_reads_back_witness :
  exists host,
    host_set_arg
      (TSRemapDoRemap SignedChar
         (Some (instance_for (bytes "tlmc.isp.example"))) (Some doc_request))
    = Some host
    /\ parse_host host
       = Some (request_digest SignedChar doc_request,
               cstr (bytes "tlmc.isp.example")).
Proof.
  apply (remap_host_reads_back SignedChar (bytes "tlmc.isp.example")
           doc_request).
  vm_compute. discriminate.
Defined.

(** ** The byte past the buffer *)

Lemma fmt_lx_short (v : Z) :
  0 <= v < 2 ^ 60 -> (List.length (fmt_lx v) <= 15)%nat.
Proof.
  intros Hv.
  destruct (fmt_lx_natural_hex v ltac:(lia)) as [[_ Hmin] Hlen].
  destruct Hmin as [Hone|Hmin]; [lia|].
  destruct (Nat.eq_dec (List.length (fmt_lx v)) 16) as [E|E]; [|lia].
  rewrite E in Hmin. change (16 ^ (Z.of_nat 16 - 1)) with (2 ^ 60) in Hmin.
  lia.
Qed.

Lemma remap_instance_for_fits
      (k : char_kind) {Url : Type} {api : UrlApi Url}
      (s : list byte) (url : Url) :
  strlen s <= INT_MAX - 17 ->
  request_digest k url < 2 ^ 60 ->
  overrun (TSRemapDoRemap k (Some (instance_for s)) (Some url)) = [].
Proof.
  intros Hs Hsmall.
  assert (Hs' : strlen s <= INT_MAX) by lia.
  pose proof (strlen_nonneg s) as Hnn.
  pose proof (request_digest_range k url) as Hr.
  destruct (instance_for_fields s Hs') as (_ & _ & Hcap).
  pose proof (formatted_instance_for_length k s url Hs') as Hlen.
  assert (Hd : 0 <= request_digest k url < 2 ^ 60) by lia.
  pose proof (fmt_lx_short (request_digest k url) Hd) as Hshort.
  set (h := instance_for s) in *.
  assert (Hres : sprintf_result (formatted k h url)
                 = Z.of_nat (List.length (formatted k h url)))
    by (apply sprintf_result_fits; lia).
  assert (Hfit : to_uint64 (sprintf_result (formatted k h url)) <= hash_len h).
  { rewrite Hres, to_uint64_small; unfold INT_MAX in *; lia. }
  destruct (remap_length_check_passes k h url Hfit) as (_ & _ & Hover & _).
  rewrite Hover. apply store_bytes_fits.
  rewrite repeat_length, length_app. cbn [List.length]. lia.
Qed.

(** X9: under the instance built for a suffix, [sprintf] stores past the
    end of the buffer exactly when the digest is 2^60 or more (16 digits),
    and then it is the terminating NUL alone: never more than one byte. *)
Theorem remap_overrun_exactly
        (k : char_kind) {Url : Type} {api : UrlApi Url}
        (s : list byte) (url : Url) :
  strlen s <= INT_MAX - 17 ->
  overrun (TSRemapDoRemap k (Some (instance_for s)) (Some url))
  = if 2 ^ 60 <=? request_digest k url then ["000"%byte] else [].
Proof.
  intros Hs.
  destruct (2 ^ 60 <=? request_digest k url) eqn:E.
  - apply Z.leb_le in E. now apply remap_instance_for_overrun.
  - apply Z.leb_gt in E. now apply remap_instance_for_fits.
Qed.

Lemma remap_overrun_exactly_witness :
  overrun
    (TSRemapDoRemap SignedChar
       (Some (instance_for (bytes "tlmc.isp.example"))) (Some doc_request))
  = if 2 ^ 60 <=? request_digest SignedChar doc_request
    then ["000"%byte] else [].
Proof.
  apply (remap_overrun_exactly SignedChar (bytes "tlmc.isp.example")
           doc_request).
  vm_compute. discriminate.
Defined.

(** ** Success, failure and the diagnostics *)

(** X10: under the instance built for a suffix, when [TSUrlHostSet]
    accepts the formatted host the transform returns
    [TSREMAP_DID_REMAP] and the request is the one [TSUrlHostSet]
    produced; nothing else is done to it. *)
Theorem remap_host_set_accepted
        (k : char_kind) {Url : Type} {api : UrlApi Url}
        (s : list byte) (url url' : Url) :
  strlen s <= INT_MAX - 17 ->
  TSUrlHostSet url (fmt_lx (request_digest k url) ++ "."%byte :: cstr s)
  = (TS_SUCCESS, url') ->
  status (TSRemapDoRemap k (Some (instance_for s)) (Some url))
  = TSREMAP_DID_REMAP
  /\ request_after (TSRemapDoRemap k (Some (instance_for s)) (Some url))
     = Some url'
  /\ host_set_arg (TSRemapDoRemap k (Some (instance_for s)) (Some url))
     = Some (fmt_lx (request_digest k url) ++ "."%byte :: cstr s).
Proof.
  intros Hs Hset.
  destruct (remap_instance_for k s url Hs) as (Harg & _ & Hreq & Hst).
  rewrite Hset in Hreq, Hst. now repeat split.
Qed.

(** The request of the documentation: the host becomes
    [24d4dc434ba8a1da.tlmc.isp.example], the path stays. *)
Lemma remap_host_set_accepted_witness :
  status
    (TSRemapDoRemap SignedChar
       (Some (instance_for (bytes "tlmc.isp.example"))) (Some doc_request))
  = TSREMAP_DID_REMAP
  /\ request_after
       (TSRemapDoRemap SignedChar
          (Some (instance_for (bytes "tlmc.isp.example"))) (Some doc_request))
     = Some {| url_host := bytes "24d4dc434ba8a1da.tlmc.isp.example";
               url_path := []; read_only := false |}
  /\ host_set_arg
       (TSRemapDoRemap SignedChar
          (Some (instance_for (bytes "tlmc.isp.example"))) (Some doc_request))
     = Some (fmt_lx (request_digest SignedChar doc_request)
             ++ "."%byte :: cstr (bytes "tlmc.isp.example")).
Proof.
  refine (remap_host_set_accepted SignedChar (bytes "tlmc.isp.example")
            doc_request
            {| url_host := bytes "24d4dc434ba8a1da.tlmc.isp.example";
               url_path := []; read_only := false |} _ _).
  - vm_compute. discriminate.
  - vm_compute. reflexivity.
Defined.

(** X11: no failure of the transform is silent and no success is noisy:
    it returns [TSREMAP_NO_REMAP] with exactly one [TSError] message and
    [TSREMAP_DID_REMAP] with none, whatever the instance, the request and
    the answer of [TSUrlHostSet]. *)
Theorem remap_failure_is_reported
        (k : char_kind) {Url : Type} {api : UrlApi Url}
        (ih : option hash_remap_struct) (rri : option Url) :
  match status (TSRemapDoRemap k ih rri) with
  | TSREMAP_NO_REMAP =>
      List.length (errors (TSRemapDoRemap k ih rri)) = 1%nat
  | TSREMAP_DID_REMAP => errors (TSRemapDoRemap k ih rri) = []
  end.
Proof.
  unfold TSRemapDoRemap.
  destruct rri as [url|]; [|reflexivity].
  destruct ih as [h|]; [|reflexivity].
  cbv zeta. destruct (_ >? _); [reflexivity|].
  destruct (TSUrlHostSet url _) as [[|] url']; reflexivity.
Qed.

(** ** The scratch buffer after a request *)

Lemma Forall_firstn_of {A : Type} (P : A -> Prop) (n : nat) (l : list A) :
  Forall P l -> Forall P (firstn n l).
Proof.
  intros H. revert n.
  induction H as [|x l Hx _ IH]; intros [|n]; cbn [firstn]; auto.
Qed.

Lemma Forall_skipn_of {A : Type} (P : A -> Prop) (n : nat) (l : list A) :
  Forall P l -> Forall P (skipn n l).
Proof.
  intros H. revert n.
  induction H as [|x l Hx Hl IH]; intros [|n]; cbn [skipn]; auto.
Qed.

Lemma Forall_repeat_eq {A : Type} (x : A) (n : nat) :
  Forall (eq x) (repeat x n).
Proof. induction n; cbn [repeat]; auto. Qed.

(** After the characters and their terminator are stored in a zeroed
    buffer, every byte of the buffer from the end of the characters on is
    NUL. *)
Lemma store_bytes_tail_zero (cap : nat) (chars : list byte) :
  Forall (eq "000"%byte)
    (skipn (List.length chars)
       (fst (store_bytes (repeat "000"%byte cap) (chars ++ ["000"%byte])))).
Proof.
  unfold store_bytes. cbn [fst].
  rewrite skipn_app. apply Forall_app. split.
  - rewrite skipn_firstn_comm, skipn_app, skipn_all, Nat.sub_diag.
    cbn [app skipn]. apply Forall_firstn_of. auto.
  - apply Forall_skipn_of, Forall_skipn_of, Forall_repeat_eq.
Qed.

(** X12: a request leaves the scratch buffer with the size it was
    allocated with, and every byte of it after the formatted characters
    is NUL, by the [memset] and the terminator: the buffer never grows
    and holds nothing but the formatted host. *)
Theorem remap_scratch_reset
        (k : char_kind) {Url : Type} {api : UrlApi Url}
        (h : hash_remap_struct) (url : Url) :
  exists buf,
    scratch (TSRemapDoRemap k (Some h) (Some url)) = Some buf
    /\ List.length buf = Z.to_nat (hash_len h)
    /\ Forall (eq "000"%byte)
         (skipn (List.length (formatted k h url)) buf).
Proof.
  exists (fst (store_bytes (repeat "000"%byte (Z.to_nat (hash_len h)))
                           (formatted k h url ++ ["000"%byte]))).
  split; [|split].
  - unfold TSRemapDoRemap. cbv zeta.
    fold (request_digest k url). fold (formatted k h url).
    destruct (_ >? _); [reflexivity|].
    destruct (TSUrlHostSet url _) as [[|] url']; reflexivity.
  - rewrite store_bytes_length. apply repeat_length.
  - apply store_bytes_tail_zero.
Qed.

(** ** The constructor and its vector *)

(** X13: the constructor looks at the third token only: two rules with
    the same third token (or both without one) get the same result,
    whatever their other tokens are. *)
Theorem new_instance_third_token_only (t1 t2 : list (list byte)) :
  nth_error t1 2 = nth_error t2 2 ->
  host_new_instance t1 = host_new_instance t2.
Proof.
  intros Hsame.
  destruct (nth_error t1 2) as [s|] eqn:E1.
  - symmetry in Hsame.
    rewrite (host_new_instance_third t1 s E1).
    rewrite (host_new_instance_third t2 s Hsame). reflexivity.
  - symmetry in Hsame.
    apply nth_error_None in E1. apply nth_error_None in Hsame.
    rewrite !host_new_instance_short by lia. reflexivity.
Qed.

Lemma new_instance_third_token_only_witness :
  host_new_instance doc_rule
  = host_new_instance
      [bytes "http://(.*)/"; bytes "http://kaa.k.se.$0/";
       bytes "tlmc.isp.example"; bytes "unused"].
Proof.
  apply (new_instance_third_token_only doc_rule
           [bytes "http://(.*)/"; bytes "http://kaa.k.se.$0/";
            bytes "tlmc.isp.example"; bytes "unused"]).
  reflexivity.
Defined.

(** X14: the constructor reads its vector out of bounds exactly when
    [argc] is 2 or more and the vector has fewer than three slots: the
    test [argc < 2] lets [argc = 2] through to [argv[2]], which is
    defined only because the host puts a NULL after the last token. *)
Theorem new_instance_reads_third_slot
        (argc : Z) (argv : list (option (list byte))) :
  TSRemapNewInstance argc argv = None
  <-> 2 <= argc /\ (List.length argv < 3)%nat.
Proof.
  unfold TSRemapNewInstance.
  destruct (argc <? 2) eqn:E.
  - apply Z.ltb_lt in E. split; [discriminate|lia].
  - apply Z.ltb_ge in E.
    destruct (nth_error argv 2) as [[arg|]|] eqn:Hn.
    + split; [discriminate|]. intros [_ Hlen].
      assert (nth_error argv 2 = None) by (apply nth_error_None; lia).
      congruence.
    + split; [discriminate|]. intros [_ Hlen].
      assert (nth_error argv 2 = None) by (apply nth_error_None; lia).
      congruence.
    + apply nth_error_None in Hn. split; [lia|reflexivity].
Qed.

(** X15: whenever the constructor returns, it returns -1 with no
    instance and the message, or 0 with the instance of the third
    argument and no message: a result and an instance never disagree. *)
Theorem new_instance_result_shape
        (argc : Z) (argv : list (option (list byte)))
        (r : Z) (ih : option hash_remap_struct) (msgs : list string) :
  TSRemapNewInstance argc argv = Some (r, ih, msgs) ->
  (r = -1 /\ ih = None /\ msgs = missing_parameters
   /\ (argc < 2 \/ nth_error argv 2 = Some None))
  \/ (r = 0 /\ msgs = [] /\ 2 <= argc
      /\ exists arg, nth_error argv 2 = Some (Some arg)
                     /\ ih = Some (instance_for arg)).
Proof.
  unfold TSRemapNewInstance.
  destruct (argc <? 2) eqn:E.
  - apply Z.ltb_lt in E. intros [= <- <- <-]. left. now auto.
  - apply Z.ltb_ge in E.
    destruct (nth_error argv 2) as [[arg|]|] eqn:Hn; [| |discriminate].
    + intros [= <- <- <-]. right.
      split; [reflexivity|]. split; [reflexivity|]. split; [exact E|].
      exists arg. split; [reflexivity|].
      unfold instance_for. rewrite strlen_TSstrdup. reflexivity.
    + intros [= <- <- <-]. left. now auto.
Qed.

Lemma new_instance_result_shape_witness :
  (0 = -1 /\ Some doc_instance = None /\ [] = missing_parameters
   /\ (3 < 2 \/ nth_error (host_argv doc_rule) 2 = Some None))
  \/ (0 = 0 /\ @nil string = [] /\ 2 <= 3
      /\ exists arg, nth_error (host_argv doc_rule) 2 = Some (Some arg)
                     /\ Some doc_instance = Some (instance_for arg)).
Proof.
  apply (new_instance_result_shape 3 (host_argv doc_rule) 0
           (Some doc_instance) []).
  vm_compute. reflexivity.
Defined.

(** ** The instance in memory *)

Lemma nth_error_at (pre post : heap) (n : nat) :
  nth_error (pre ++ post) (List.length pre + n) = nth_error post n.
Proof.
  induction pre as [|x pre IH]; cbn [app List.length Nat.add nth_error].
  - reflexivity.
  - exact IH.
Qed.

Lemma nth_error_before (pre post : heap) (n : nat) :
  (n < List.length pre)%nat -> nth_error (pre ++ post) n = nth_error pre n.
Proof. intros H. now apply nth_error_app1. Qed.

Lemma heap_update_at (pre post : heap) (n : nat) (b : option block) :
  heap_update (pre ++ post) (List.length pre + n)%nat b
  = pre ++ heap_update post n b.
Proof.
  induction pre as [|x pre IH]; cbn [app List.length Nat.add heap_update].
  - reflexivity.
  - destruct (pre ++ post) eqn:E; now rewrite <- IH.
Qed.

Lemma nth_error_head (pre post : heap) :
  nth_error (pre ++ post) (List.length pre) = nth_error post 0.
Proof. rewrite <- (nth_error_at pre post 0), Nat.add_0_r. reflexivity. Qed.

Lemma heap_update_head (pre post : heap) (b : option block) :
  heap_update (pre ++ post) (List.length pre) b
  = pre ++ heap_update post 0%nat b.
Proof. rewrite <- (heap_update_at pre post 0%nat b), Nat.add_0_r. reflexivity. Qed.

(** The heap a successful construction leaves. *)
Lemma new_instance_heap_success
      (hp : heap) (argc : Z) (argv : list (option (list byte)))
      (arg : list byte) :
  2 <= argc -> nth_error argv 2 = Some (Some arg) ->
  TSRemapNewInstance_heap hp argc argv
  = Some (0, Some (List.length hp),
          hp ++ instance_blocks (List.length hp) arg).
Proof.
  intros Hargc Harg. unfold TSRemapNewInstance_heap, heap_alloc.
  destruct (argc <? 2) eqn:E; [apply Z.ltb_lt in E; lia|].
  rewrite Harg.
  rewrite !length_app. cbn [List.length].
  rewrite <- !app_assoc. cbn [app].
  rewrite heap_update_head. cbn [heap_update].
  unfold instance_blocks, instance_for, TSstrdup.
  cbn [isp_name isp_name_len hash_len].
  rewrite <- (strlen_TSstrdup arg). unfold TSstrdup.
  rewrite <- Nat.add_assoc. reflexivity.
Qed.

Lemma new_instance_heap_inversion
      (hp hp' : heap) (argc : Z) (argv : list (option (list byte)))
      (r : Z) (ih : option ptr) :
  TSRemapNewInstance_heap hp argc argv = Some (r, ih, hp') ->
  (r = -1 /\ ih = None /\ hp' = hp)
  \/ (r = 0 /\ ih = Some (List.length hp)
      /\ exists arg, 2 <= argc /\ nth_error argv 2 = Some (Some arg)
                     /\ hp' = hp ++ instance_blocks (List.length hp) arg).
Proof.
  intros H.
  destruct (argc <? 2) eqn:E.
  - unfold TSRemapNewInstance_heap in H. rewrite E in H.
    injection H as <- <- <-. now left.
  - apply Z.ltb_ge in E.
    destruct (nth_error argv 2) as [[arg|]|] eqn:Hn.
    + rewrite (new_instance_heap_success hp argc argv arg E Hn) in H.
      injection H as <- <- <-. right.
      split; [reflexivity|]. split; [reflexivity|]. now exists arg.
    + unfold TSRemapNewInstance_heap in H.
      apply Z.ltb_ge in E. rewrite E, Hn in H.
      injection H as <- <- <-. now left.
    + unfold TSRemapNewInstance_heap in H.
      apply Z.ltb_ge in E. rewrite E, Hn in H. discriminate.
Qed.

(** Reading the instance at the head of its three blocks. *)
Lemma heap_instance_at (pre post : heap) (arg : list byte) :
  heap_instance (pre ++ instance_blocks (List.length pre) arg ++ post)
                (List.length pre)
  = Some (instance_for arg).
Proof.
  unfold heap_instance.
  rewrite nth_error_head. cbn [instance_blocks app nth_error].
  rewrite nth_error_at. cbn [nth_error].
  reflexivity.
Qed.

(** Teardown of the instance at the head of its three blocks. *)
Lemma delete_instance_at (pre post : heap) (arg : list byte) :
  TSRemapDeleteInstance
    (pre ++ instance_blocks (List.length pre) arg ++ post)
    (Some (List.length pre))
  = Some (pre ++ [None; None; None] ++ post).
Proof.
  unfold TSRemapDeleteInstance.
  rewrite nth_error_head. cbn [instance_blocks app nth_error].
  unfold TSfree.
  rewrite nth_error_at. cbn [nth_error].
  rewrite heap_update_at. cbn [heap_update].
  rewrite nth_error_at. cbn [nth_error].
  rewrite heap_update_at. cbn [heap_update].
  rewrite nth_error_head. cbn [nth_error].
  rewrite heap_update_head. cbn [heap_update].
  reflexivity.
Qed.

Lemma live_blocks_app (a b : heap) :
  live_blocks (a ++ b) = (live_blocks a + live_blocks b)%nat.
Proof. unfold live_blocks. now rewrite filter_app, length_app. Qed.

(** X16: the constructor with its allocations agrees with the
    constructor on values: the same result, and on success the pointer it
    stores leads to the very instance, in a heap that has three blocks
    more and every earlier block as it was. *)
Theorem new_instance_heap_refines
        (hp : heap) (argc : Z) (argv : list (option (list byte))) :
  match TSRemapNewInstance argc argv with
  | None => TSRemapNewInstance_heap hp argc argv = None
  | Some (r, None, _) =>
      TSRemapNewInstance_heap hp argc argv = Some (r, None, hp)
  | Some (r, Some h, _) =>
      exists hp',
        TSRemapNewInstance_heap hp argc argv
        = Some (r, Some (List.length hp), hp')
        /\ heap_instance hp' (List.length hp) = Some h
        /\ firstn (List.length hp) hp' = hp
        /\ live_blocks hp' = (live_blocks hp + 3)%nat
  end.
Proof.
  unfold TSRemapNewInstance.
  destruct (argc <? 2) eqn:E.
  - unfold TSRemapNewInstance_heap. now rewrite E.
  - destruct (nth_error argv 2) as [[arg|]|] eqn:Hn.
    + apply Z.ltb_ge in E.
      exists (hp ++ instance_blocks (List.length hp) arg).
      split; [now apply new_instance_heap_success|].
      split.
      { rewrite <- (app_nil_r (instance_blocks (List.length hp) arg)).
        rewrite heap_instance_at. unfold instance_for.
        rewrite strlen_TSstrdup. reflexivity. }
      split.
      { rewrite firstn_app, Nat.sub_diag, firstn_all. cbn [firstn].
        apply app_nil_r. }
      rewrite live_blocks_app. reflexivity.
    + unfold TSRemapNewInstance_heap. now rewrite E, Hn.
    + unfold TSRemapNewInstance_heap. now rewrite E, Hn.
Qed.

(** X17: teardown after construction frees all that the construction
    allocated and nothing else: the three new blocks are released, every
    earlier block is as it was, and as many blocks are live as before the
    construction. *)
Theorem new_then_delete_frees_all
        (hp hp' : heap) (argc : Z) (argv : list (option (list byte)))
        (ih : option ptr) :
  TSRemapNewInstance_heap hp argc argv = Some (0, ih, hp') ->
  TSRemapDeleteInstance hp' ih = Some (hp ++ [None; None; None])
  /\ live_blocks (hp ++ [None; None; None]) = live_blocks hp.
Proof.
  intros H.
  destruct (new_instance_heap_inversion hp hp' argc argv 0 ih H)
    as [(Hr & _)|(_ & -> & arg & _ & _ & ->)]; [discriminate|].
  split.
  - rewrite <- (app_nil_r (instance_blocks (List.length hp) arg)).
    rewrite delete_instance_at. reflexivity.
  - rewrite live_blocks_app. cbn. lia.
Qed.

Lemma new_then_delete_frees_all_witness :
  TSRemapDeleteInstance
    ([Some (RawBlock 8)] ++ instance_blocks 1%nat (bytes "tlmc.isp.example"))
    (Some 1%nat)
  = Some ([Some (RawBlock 8)] ++ [None; None; None])
  /\ live_blocks ([Some (RawBlock 8)] ++ [None; None; None])
     = live_blocks [Some (RawBlock 8)].
Proof.
  apply (new_then_delete_frees_all
           [Some (RawBlock 8)]
           ([Some (RawBlock 8)] ++ instance_blocks 1%nat (bytes "tlmc.isp.example"))
           3 (host_argv doc_rule) (Some 1%nat)).
  vm_compute. reflexivity.
Defined.

(** X18: a second teardown of the same instance is undefined: the
    function has no guard against it and would read and free released
    memory. *)
Theorem delete_twice_is_undefined
        (hp hp' hp'' : heap) (argc : Z) (argv : list (option (list byte)))
        (ih : option ptr) :
  TSRemapNewInstance_heap hp argc argv = Some (0, ih, hp') ->
  TSRemapDeleteInstance hp' ih = Some hp'' ->
  TSRemapDeleteInstance hp'' ih = None.
Proof.
  intros Hnew Hdel.
  destruct (new_instance_heap_inversion hp hp' argc argv 0 ih Hnew)
    as [(Hr & _)|(_ & -> & arg & _ & _ & ->)]; [discriminate|].
  rewrite <- (app_nil_r (instance_blocks (List.length hp) arg)) in Hdel.
  rewrite delete_instance_at in Hdel. injection Hdel as <-.
  unfold TSRemapDeleteInstance.
  rewrite nth_error_head. reflexivity.
Qed.

Lemma delete_twice_is_undefined_witness :
  TSRemapDeleteInstance
    ([Some (RawBlock 8)] ++ [None; None; None]) (Some 1%nat)
  = None.
Proof.
  apply (delete_twice_is_undefined
           [Some (RawBlock 8)]
           ([Some (RawBlock 8)] ++ instance_blocks 1%nat (bytes "tlmc.isp.example"))
           ([Some (RawBlock 8)] ++ [None; None; None])
           3 (host_argv doc_rule) (Some 1%nat)).
  - vm_compute. reflexivity.
  - vm_compute. reflexivity.
Defined.

(** X19: rules do not share memory: of two instances constructed one
    after the other, tearing either one down leaves the other readable
    and unchanged. *)
Theorem delete_keeps_other_instance
        (hp hp1 hp2 : heap)
        (argc1 argc2 : Z) (argv1 argv2 : list (option (list byte)))
        (p1 p2 : ptr) :
  TSRemapNewInstance_heap hp argc1 argv1 = Some (0, Some p1, hp1) ->
  TSRemapNewInstance_heap hp1 argc2 argv2 = Some (0, Some p2, hp2) ->
  exists h1 h2,
    heap_instance hp2 p1 = Some h1
    /\ heap_instance hp2 p2 = Some h2
    /\ (exists hp3, TSRemapDeleteInstance hp2 (Some p1) = Some hp3
                    /\ heap_instance hp3 p2 = Some h2)
    /\ (exists hp3, TSRemapDeleteInstance hp2 (Some p2) = Some hp3
                    /\ heap_instance hp3 p1 = Some h1).
Proof.
  intros H1 H2.
  destruct (new_instance_heap_inversion hp hp1 argc1 argv1 0 _ H1)
    as [(Hr & _)|(_ & [= ->] & a1 & _ & _ & ->)]; [discriminate|].
  destruct (new_instance_heap_inversion _ hp2 argc2 argv2 0 _ H2)
    as [(Hr & _)|(_ & [= ->] & a2 & _ & _ & ->)]; [discriminate|].
  assert (Hlen : List.length (hp ++ instance_blocks (List.length hp) a1)
                 = (List.length hp + 3)%nat)
    by (rewrite length_app; reflexivity).
  assert (Hlen' : List.length (hp ++ [None; None; None])
                  = (List.length hp + 3)%nat)
    by (rewrite length_app; reflexivity).
  exists (instance_for a1), (instance_for a2).
  split; [|split; [|split]].
  - rewrite <- app_assoc. apply heap_instance_at.
  - rewrite <- (app_nil_r (instance_blocks _ a2)). apply heap_instance_at.
  - exists (hp ++ [None; None; None]
               ++ instance_blocks (List.length hp + 3)%nat a2).
    rewrite Hlen. split.
    + rewrite <- app_assoc. apply delete_instance_at.
    + rewrite app_assoc. rewrite <- Hlen' at 1 2.
      rewrite <- (app_nil_r (instance_blocks _ a2)).
      apply heap_instance_at.
  - exists ((hp ++ instance_blocks (List.length hp) a1) ++ [None; None; None]).
    split.
    + rewrite <- (app_nil_r (instance_blocks _ a2)).
      rewrite delete_instance_at. reflexivity.
    + rewrite <- app_assoc. apply heap_instance_at.
Qed.

Lemma delete_keeps_other_instance_witness :
  exists h1 h2,
    heap_instance
      (instance_blocks 0%nat (bytes "tlmc.isp.example")
       ++ instance_blocks 3%nat (bytes "other.example")) 0%nat
    = Some h1
    /\ heap_instance
         (instance_blocks 0%nat (bytes "tlmc.isp.example")
          ++ instance_blocks 3%nat (bytes "other.example")) 3%nat
       = Some h2
    /\ (exists hp3,
          TSRemapDeleteInstance
            (instance_blocks 0%nat (bytes "tlmc.isp.example")
             ++ instance_blocks 3%nat (bytes "other.example"))
            (Some 0%nat)
          = Some hp3
          /\ heap_instance hp3 3%nat = Some h2)
    /\ (exists hp3,
          TSRemapDeleteInstance
            (instance_blocks 0%nat (bytes "tlmc.isp.example")
             ++ instance_blocks 3%nat (bytes "other.example"))
            (Some 3%nat)
          = Some hp3
          /\ heap_instance hp3 0%nat = Some h1).
Proof.
  apply (delete_keeps_other_instance
           [] (instance_blocks 0%nat (bytes "tlmc.isp.example"))
           (instance_blocks 0%nat (bytes "tlmc.isp.example")
            ++ instance_blocks 3%nat (bytes "other.example"))
           3 3 (host_argv doc_rule)
           (host_argv [bytes "from"; bytes "to"; bytes "other.example"])
           0%nat 3%nat).
  - vm_compute. reflexivity.
  - vm_compute. reflexivity.
Defined.
